(** * Multilingual admin tabs (staticfiles/admin/js/multilang.js)

    A shallow embedding of the tab controller: the form's markup, the
    browser storage, the construction of the tab strip, and the click,
    keyboard and deferred error-scan handlers, followed by the properties
    the specification states about them. *)

From Stdlib Require Import ZArith Ascii String.
From stdpp Require Import base strings list gmap.

Open Scope string_scope.
Open Scope list_scope.
Open Scope nat_scope.

(** ** Strings as the script uses them *)

Module Str.

(** [s.split(sep)] for a one-character separator: the pieces between
    the separators, empty pieces included; splitting the empty string
    gives one empty piece. *)
Fixpoint split (sep : ascii -> bool) (s : string) : list string :=
  match s with
  | EmptyString => [EmptyString]
  | String c s' =>
      if sep c then EmptyString :: split sep s'
      else match split sep s' with
           | [] => [String c EmptyString]
           | w :: ws => String c w :: ws
           end
  end.

Definition is_space (c : ascii) : bool := Ascii.eqb c " "%char.

(** [s.startsWith(p)] *)
Definition startsWith (s p : string) : bool := String.prefix p s.

(** [s.replace(pat, rep)] with a string pattern: the first occurrence
    only. *)
Fixpoint replace (pat rep s : string) : string :=
  if String.prefix pat s then rep +:+ String.substring (String.length pat) (String.length s - String.length pat) s
  else match s with
       | EmptyString => EmptyString
       | String c s' => String c (replace pat rep s')
       end.

(** The white space that separates the tokens of a class attribute. *)
Definition is_html_space (c : ascii) : bool :=
  match Ascii.nat_of_ascii c with
  | 9 | 10 | 12 | 13 | 32 => true
  | _ => false
  end.

(** The class tokens of a class attribute, as a class selector sees
    them. *)
Definition tokens (cls : string) : list string :=
  filter (fun w => w <> EmptyString) (split is_html_space cls).

Definition hasClass (c cls : string) : bool := bool_decide (c ∈ tokens cls).

End Str.

(** ** The document

    The form is a sequence of sibling elements, as the admin renders its
    field groups, and the marker class [lang-tab] is looked for on these;
    an element's content is a tree of markup.  The strip the script builds
    is kept as a typed item of the document, and the selectors on
    [lang-tab-header] and [lang-tab-content] range over its headers and
    panels.  This is what the script's document-wide selectors find on a
    page whose own markup keeps clear of these classes ([form_ok] and
    [state_ok] below); the properties are stated for such pages. *)

#[warnings="-register-all"]
Inductive node : Type :=
| Text (t : string)
| Elem (cls : string) (kids : list node).

Record element := {
  el_class : string;      (* the class attribute, as written *)
  el_kids : list node;
  el_hidden : bool        (* display: none *)
}.

Record header := {
  h_class : list string;
  h_lang : string;        (* data-lang *)
  h_text : string;
  h_title : option string
}.

Record panel := {
  p_class : list string;
  p_lang : string;        (* data-lang *)
  p_kids : list node
}.

Inductive item : Type :=
| Plain (e : element)
| LangTabs (tabHeaders : list header) (tabContents : list panel).

Record state := {
  doc : list item;
  localStorage : gmap string string
}.

(** A page as the server sends it, before the script has run. *)
Definition page (els : list element) (ls : gmap string string) : state :=
  {| doc := Plain <$> els; localStorage := ls |}.

Module JQ.

(** [addClass]: the class is appended unless the element has it. *)
Definition addClass (c : string) (l : list string) : list string :=
  if bool_decide (c ∈ l) then l else l ++ [c].

(** [removeClass]: every occurrence goes. *)
Definition removeClass (c : string) (l : list string) : list string :=
  filter (fun x => x <> c) l.

Definition is_elem (n : node) : bool :=
  match n with Elem _ _ => true | Text _ => false end.

(** The elements of class [c] in the tree [n], itself included, in
    document order. *)
Fixpoint matching (c : string) (n : node) : list node :=
  match n with
  | Text _ => []
  | Elem cls ks =>
      (if Str.hasClass c cls then [n] else []) ++ flat_map (matching c) ks
  end.

(** [x.find('.c')] on the content [ks] of [x]: descendants only. *)
Definition find (c : string) (ks : list node) : list node :=
  flat_map (matching c) ks.

(** [x.children()]: the element children. *)
Definition children (ks : list node) : list node := filter is_elem ks.

(** The tree [n] once every element of class [c] has been moved out of
    it (nothing is left when [n] is one of them). *)
Fixpoint without (c : string) (n : node) : list node :=
  match n with
  | Text _ => [n]
  | Elem cls ks =>
      if Str.hasClass c cls then [] else [Elem cls (flat_map (without c) ks)]
  end.

(** What [target.append(x.find('.c'))] appends: the elements of class
    [c] in document order; appending a later one takes it out of an
    earlier one that contained it. *)
Fixpoint detached (c : string) (n : node) : list node :=
  match n with
  | Text _ => []
  | Elem cls ks =>
      (if Str.hasClass c cls then [Elem cls (flat_map (without c) ks)] else [])
        ++ flat_map (detached c) ks
  end.

End JQ.

(** ** Browser storage *)

Definition storage_key : string := "selectedLangTab".

(** [v || d] on the result of [getItem]: [null] and the empty string are
    falsy. *)
Definition js_or (v : option string) (d : string) : string :=
  match v with
  | Some s => if String.eqb s "" then d else s
  | None => d
  end.

Definition saveSelectedTab (tabId : string) (st : state) : state :=
  {| doc := doc st; localStorage := <[storage_key := tabId]> (localStorage st) |}.

Definition getSelectedTab (st : state) : string :=
  js_or (localStorage st !! storage_key) "en".

(** ** Selections over the strip *)

Definition headers_of (it : item) : list header :=
  match it with LangTabs hs _ => hs | Plain _ => [] end.

Definition panels_of (it : item) : list panel :=
  match it with LangTabs _ ps => ps | Plain _ => [] end.

(** [$('.lang-tab-header')] and [$('.lang-tab-content')], in document
    order. *)
Definition headers (st : state) : list header := flat_map headers_of (doc st).
Definition panels (st : state) : list panel := flat_map panels_of (doc st).

Definition on_headers (f : header -> header) (st : state) : state :=
  {| doc := (fun it => match it with
                       | LangTabs hs ps => LangTabs (f <$> hs) ps
                       | Plain e => Plain e
                       end) <$> doc st;
     localStorage := localStorage st |}.

Definition on_panels (f : panel -> panel) (st : state) : state :=
  {| doc := (fun it => match it with
                       | LangTabs hs ps => LangTabs hs (f <$> ps)
                       | Plain e => Plain e
                       end) <$> doc st;
     localStorage := localStorage st |}.

Definition h_set_class (f : list string -> list string) (h : header) : header :=
  {| h_class := f (h_class h); h_lang := h_lang h; h_text := h_text h; h_title := h_title h |}.

Definition p_set_class (f : list string -> list string) (p : panel) : panel :=
  {| p_class := f (p_class p); p_lang := p_lang p; p_kids := p_kids p |}.

Definition h_set_title (t : string) (h : header) : header :=
  {| h_class := h_class h; h_lang := h_lang h; h_text := h_text h; h_title := Some t |}.

(** The attribute selector [[data-lang="c"]] the script builds by
    concatenation, for a code [c] that the quotes delimit as it stands
    ([plain] below): the attribute equals [c].  What the selector engine
    does with another code (an escape, a syntax error) is not modelled;
    the properties are stated for plain codes. *)
Definition h_data_lang_is (c : string) (h : header) : bool := String.eqb (h_lang h) c.
Definition p_data_lang_is (c : string) (p : panel) : bool := String.eqb (p_lang p) c.

Definition h_active (h : header) : bool := bool_decide ("active" ∈ h_class h).
Definition p_active (p : panel) : bool := bool_decide ("active" ∈ p_class p).

(** ** switchToTab *)

Definition switchToTab (langCode : string) (st : state) : state :=
  let st := on_headers (h_set_class (JQ.removeClass "active")) st in
  let st := on_panels (p_set_class (JQ.removeClass "active")) st in
  let st := on_headers (fun h => if h_data_lang_is langCode h
                                 then h_set_class (JQ.addClass "active") h else h) st in
  on_panels (fun p => if p_data_lang_is langCode p
                      then p_set_class (JQ.addClass "active") p else p) st.

(** ** initMultilingualTabs *)

Record language := { code : string; name : string; class : string }.

Definition languages : list language :=
  [ {| code := "en"; name := "English"; class := "lang-en" |};
    {| code := "mk"; name := "Македонски"; class := "lang-mk" |} ].

(** [$('.lang-tab')]: the positions of the marked field groups in the
    document, in document order. *)
Definition is_lang_tab (it : item) : bool :=
  match it with
  | Plain e => Str.hasClass "lang-tab" (el_class e)
  | LangTabs _ _ => false
  end.

Fixpoint select_from (i : nat) (d : list item) : list nat :=
  match d with
  | [] => []
  | it :: d' => (if is_lang_tab it then [i] else []) ++ select_from (S i) d'
  end.

Definition select_lang_tab (d : list item) : list nat := select_from 0 d.

(** [langGroups] is a plain object: a key it does not hold itself is
    looked up on [Object.prototype]. *)
Definition object_prototype : list string :=
  [ "constructor"; "hasOwnProperty"; "isPrototypeOf"; "propertyIsEnumerable";
    "toLocaleString"; "toString"; "valueOf"; "__proto__";
    "__defineGetter__"; "__defineSetter__"; "__lookupGetter__"; "__lookupSetter__" ].

Inductive property : Type :=
| Own (fieldsets : list nat)   (* an array of the script's own: truthy, has push *)
| Inherited                    (* truthy, and no array *)
| Undefined.

Definition get (langGroups : gmap string (list nat)) (k : string) : property :=
  match langGroups !! k with
  | Some a => Own a
  | None => if bool_decide (k ∈ object_prototype) then Inherited else Undefined
  end.

(** [langGroups[lang.code] = []] for each language. *)
Definition empty_groups : gmap string (list nat) :=
  foldl (fun g lang => <[code lang := []]> g) ∅ languages.

(** The body of the loop over the class names of the fieldset at
    position [i]; [None] is the TypeError of calling a missing [push]. *)
Definition categorize_class (i : nat) (className : string)
    (langGroups : gmap string (list nat)) : option (gmap string (list nat)) :=
  if Str.startsWith className "lang-" && negb (String.eqb className "lang-tab") then
    let langCode := Str.replace "lang-" "" className in
    match get langGroups langCode with
    | Own a => Some (<[langCode := (a ++ [i])%list]> langGroups)
    | Inherited => None
    | Undefined => Some langGroups
    end
  else Some langGroups.

Fixpoint categorize_classes (i : nat) (classes : list string)
    (langGroups : gmap string (list nat)) : option (gmap string (list nat)) :=
  match classes with
  | [] => Some langGroups
  | className :: rest =>
      match categorize_class i className langGroups with
      | Some g => categorize_classes i rest g
      | None => None
      end
  end.

Definition class_attr (d : list item) (i : nat) : string :=
  match d !! i with
  | Some (Plain e) => el_class e
  | _ => ""
  end.

Fixpoint categorize (d : list item) (langFieldsets : list nat)
    (langGroups : gmap string (list nat)) : option (gmap string (list nat)) :=
  match langFieldsets with
  | [] => Some langGroups
  | i :: rest =>
      match categorize_classes i (Str.split Str.is_space (class_attr d i)) langGroups with
      | Some g => categorize d rest g
      | None => None
      end
  end.

Definition group (langGroups : gmap string (list nat)) (c : string) : list nat :=
  default [] (langGroups !! c).

Definition tabHeader (lang : language) : header :=
  {| h_class := ["lang-tab-header"; class lang]; h_lang := code lang;
     h_text := name lang; h_title := None |}.

Definition build_headers (langGroups : gmap string (list nat)) : list header :=
  flat_map (fun lang => if 0 <? length (group langGroups (code lang))
                        then [tabHeader lang] else []) languages.

(** What a fieldset gives to its panel: its [.module] descendants when it
    has any, its element children otherwise. *)
Definition content (ks : list node) : list node :=
  if 0 <? length (JQ.find "module" ks)
  then flat_map (JQ.detached "module") ks
  else JQ.children ks.

(** The fieldset once its content has been moved away and it has been
    hidden: the class attribute stays, text directly under it stays. *)
Definition emptied (fieldset : element) : element :=
  {| el_class := el_class fieldset;
     el_kids := if 0 <? length (JQ.find "module" (el_kids fieldset))
                then flat_map (JQ.without "module") (el_kids fieldset)
                else filter (fun n => negb (JQ.is_elem n)) (el_kids fieldset);
     el_hidden := true |}.

(** One fieldset of a group: its content goes to the end of the panel
    being built and the fieldset is hidden where it stands.  The fieldset
    is read at its position in the current document, so one that is
    listed twice gives, the second time, what the first move left. *)
Definition move_fieldset (acc : list item * list node) (i : nat) : list item * list node :=
  match acc.1 !! i with
  | Some (Plain fieldset) =>
      (<[i := Plain (emptied fieldset)]> acc.1, acc.2 ++ content (el_kids fieldset))
  | _ => acc
  end.

Definition tabContent (lang : language) (ks : list node) : panel :=
  {| p_class := ["lang-tab-content"]; p_lang := code lang; p_kids := ks |}.

Definition build_content (langGroups : gmap string (list nat))
    (acc : list item * list panel) (lang : language) : list item * list panel :=
  if 0 <? length (group langGroups (code lang)) then
    let r := foldl move_fieldset (acc.1, []) (group langGroups (code lang)) in
    (r.1, acc.2 ++ [tabContent lang r.2])
  else acc.

Definition build_contents (langGroups : gmap string (list nat)) (d : list item)
    : list item * list panel :=
  foldl (build_content langGroups) (d, []) languages.

(** [x.before(y)] for the element [x] at position [i]. *)
Definition before (i : nat) (y : item) (d : list item) : list item :=
  take i d ++ y :: drop i d.

(** How a call ends: it returns, or an exception leaves it; either way
    with the page in the state it then has. *)
Inductive outcome : Type :=
| Returned (st : state)
| Threw (st : state).

Definition initMultilingualTabs (st : state) : outcome :=
  let langFieldsets := select_lang_tab (doc st) in
  match langFieldsets with
  | [] => Returned st
  | firstLangFieldset :: _ =>
      match categorize (doc st) langFieldsets empty_groups with
      | None => Threw st
      | Some langGroups =>
          let tabHeaders := build_headers langGroups in
          let built := build_contents langGroups (doc st) in
          let st := {| doc := before firstLangFieldset (LangTabs tabHeaders built.2) built.1;
                       localStorage := localStorage st |} in
          let selectedTab := getSelectedTab st in
          let selectedTab :=
            if length (filter (fun h => h_data_lang_is selectedTab h = true) (headers st)) =? 0
            then "en" else selectedTab in
          Returned (switchToTab selectedTab st)
      end
  end.

(** ** The handlers *)

(** A click on the header [h]. *)
Definition click (h : header) (st : state) : state :=
  let selectedLang := h_lang h in
  saveSelectedTab selectedLang (switchToTab selectedLang st).

Definition has_errors (tabContent : panel) : bool :=
  (0 <? length (JQ.find "errorlist" (p_kids tabContent)))
  || (0 <? length (JQ.find "error" (p_kids tabContent))).

(** The [each] loop of [showTabWithErrors] over the panels selected when
    it starts; the first component lists the panels it has inspected. *)
Fixpoint scan (tabContents : list panel) (st : state) : list panel * state :=
  match tabContents with
  | [] => ([], st)
  | tabContent :: rest =>
      if has_errors tabContent
      then ([tabContent], switchToTab (p_lang tabContent) st)
      else let r := scan rest st in (tabContent :: r.1, r.2)
  end.

Definition showTabWithErrors (st : state) : state := (scan (panels st) st).2.

Record key_event := { ctrlKey : bool; metaKey : bool; which : Z }.

(** The keydown handler; the second component says whether it called
    [preventDefault]. *)
Definition keydown (e : key_event) (st : state) : state * bool :=
  if ctrlKey e || metaKey e then
    if (which e =? 49)%Z then (switchToTab "en" st, true)
    else if (which e =? 50)%Z then (switchToTab "mk" st, true)
    else (st, false)
  else (st, false).

(** The shortcut hints set at the end of the ready callback. *)
Definition hints (st : state) : state :=
  if 0 <? length (headers st) then
    let st := on_headers (fun h => if h_data_lang_is "en" h
                                   then h_set_title "English (Ctrl+1)" h else h) st in
    on_headers (fun h => if h_data_lang_is "mk" h
                         then h_set_title "Македонски (Ctrl+2)" h else h) st
  else st.

(** The ready callback.  When [initMultilingualTabs] throws, nothing
    after the call runs: no timer is set and no key handler is bound. *)
Definition ready (st : state) : outcome :=
  match initMultilingualTabs st with
  | Returned st => Returned (hints st)
  | Threw st => Threw st
  end.

(** ** The pages and states the model covers

    The script finds its elements by class, anywhere in the document, and
    builds the selector for a language by writing the code between double
    quotes.  The model selects the marked groups among the form's sibling
    elements, the headers and panels in the strip, and the header or panel
    of a code by comparing the code with the attribute.  The two agree on
    the pages and states described here, and the properties below are
    stated for these. *)

Fixpoint all_chars (f : ascii -> bool) (s : string) : bool :=
  match s with
  | EmptyString => true
  | String c s' => f c && all_chars f s'
  end.

(** A code that the quotes of an attribute selector delimit as it
    stands: printable ASCII with no double quote and no backslash. *)
Definition plain_char (c : ascii) : bool :=
  let n := Ascii.nat_of_ascii c in
  (32 <=? n) && (n <=? 126) && negb (n =? 34) && negb (n =? 92).

Definition plain (c : string) : bool := all_chars plain_char c.

(** The classes the script selects elements by. *)
Definition script_classes : list string :=
  ["lang-tab"; "lang-tab-header"; "lang-tab-content"].

(** No element of the tree [n] has one of these classes. *)
Definition node_clear (n : node) : bool :=
  forallb (fun c => match JQ.matching c n with [] => true | _ :: _ => false end)
          script_classes.

(** An element of the form: it is no header and no panel, and nothing
    inside it is a marked group, a header or a panel. *)
Definition element_clear (e : element) : bool :=
  negb (Str.hasClass "lang-tab-header" (el_class e))
  && negb (Str.hasClass "lang-tab-content" (el_class e))
  && forallb node_clear (el_kids e).

(** The form as the server sends it: the marked groups are among its
    sibling elements and its markup does not use the classes of the
    strip. *)
Definition form_ok (els : list element) : bool := forallb element_clear els.

(** The selection read from storage is a plain code. *)
Definition stored_ok (ls : gmap string string) : bool :=
  plain (js_or (ls !! storage_key) "en").

(** A header and a panel as the script builds them: of the class it
    selects them by and of no other of its classes, and of one of the two
    languages. *)
Definition header_ok (h : header) : bool :=
  bool_decide ("lang-tab-header" ∈ h_class h)
  && negb (bool_decide ("lang-tab-content" ∈ h_class h))
  && negb (bool_decide ("lang-tab" ∈ h_class h))
  && bool_decide (h_lang h ∈ code <$> languages).

Definition panel_ok (p : panel) : bool :=
  bool_decide ("lang-tab-content" ∈ p_class p)
  && negb (bool_decide ("lang-tab-header" ∈ p_class p))
  && negb (bool_decide ("lang-tab" ∈ p_class p))
  && bool_decide (p_lang p ∈ code <$> languages)
  && forallb node_clear (p_kids p).

Definition item_ok (it : item) : bool :=
  match it with
  | Plain e => element_clear e
  | LangTabs hs ps => forallb header_ok hs && forallb panel_ok ps
  end.

(** A state in which the headers and panels of the strip are the only
    elements of their classes. *)
Definition state_ok (st : state) : bool := forallb item_ok (doc st).

(** The states of a page once the ready callback has returned: after
    it, header clicks, key presses and the deferred error scan. *)
Inductive reachable : state -> Prop :=
| reach_ready els ls st :
    form_ok els = true -> stored_ok ls = true ->
    ready (page els ls) = Returned st -> reachable st
| reach_click h st :
    reachable st -> h ∈ headers st -> reachable (click h st)
| reach_keydown e st :
    reachable st -> reachable (keydown e st).1
| reach_timeout st :
    reachable st -> reachable (showTabWithErrors st).

(** ** Auxiliary notions for the statements *)

(** What [switchToTab] leaves in the class list of a header or panel. *)
Definition switched (langCode lang : string) (cls : list string) : list string :=
  if String.eqb lang langCode
  then JQ.addClass "active" (JQ.removeClass "active" cls)
  else JQ.removeClass "active" cls.


Definition switch_item (langCode : string) (it : item) : item :=
  match it with
  | Plain e => Plain e
  | LangTabs hs ps =>
      LangTabs ((fun h => h_set_class (switched langCode (h_lang h)) h) <$> hs)
               ((fun p => p_set_class (switched langCode (p_lang p)) p) <$> ps)
  end.

(** How often a class list names the active class. *)
Definition actives (cls : list string) : nat :=
  length (filter (fun x => x = "active") cls).

(** The plain elements of a document, in document order. *)
Definition elements_of (d : list item) : list element :=
  omap (fun it => match it with Plain e => Some e | LangTabs _ _ => None end) d.

Definition state_of (o : outcome) : state :=
  match o with Returned st => st | Threw st => st end.

(** A field group carries the marker class. *)
Definition marked (e : element) : bool := Str.hasClass "lang-tab" (el_class e).


(** A marked field group of the language [c]. *)
Definition tagged (c : string) (e : element) : bool :=
  marked e && bool_decide (("lang-" +:+ c) ∈ Str.split Str.is_space (el_class e)).


(** ** Sample pages *)

Definition fieldset (cls : string) (ks : list node) : element :=
  {| el_class := cls; el_kids := ks; el_hidden := false |}.

Definition row (label : string) : node := Elem "form-row" [Text label].

Definition failed_row (label : string) : node :=
  Elem "form-row errors" [Elem "errorlist" [Text "This field is required."]; Text label].

(** Two English groups and one Macedonian group after an unmarked
    one. *)
Definition three_groups : list element :=
  [ fieldset "module aligned" [row "slug"];
    fieldset "module aligned lang-tab lang-en" [row "title_en"];
    fieldset "module aligned lang-tab lang-mk" [row "title_mk"];
    fieldset "module aligned lang-tab lang-en" [row "body_en"] ].

(** The same, with a validation error in the Macedonian group. *)
Definition three_groups_mk_error : list element :=
  [ fieldset "module aligned" [row "slug"];
    fieldset "module aligned lang-tab lang-en" [row "title_en"];
    fieldset "module aligned lang-tab lang-mk" [failed_row "title_mk"];
    fieldset "module aligned lang-tab lang-en" [row "body_en"] ].

(** A page whose only marked group is Macedonian. *)
Definition mk_only : list element :=
  [ fieldset "module aligned lang-tab lang-mk" [row "title_mk"] ].

Definition ctrl_1 : key_event := {| ctrlKey := true; metaKey := false; which := 49 |}.
Definition ctrl_2 : key_event := {| ctrlKey := true; metaKey := false; which := 50 |}.

(** The languages of the headers and of the panels that carry the active
    class. *)
Definition active_headers (st : state) : list string :=
  h_lang <$> filter (fun h => h_active h = true) (headers st).

Definition active_panels (st : state) : list string :=
  p_lang <$> filter (fun p => p_active p = true) (panels st).

(** The own keys of [langGroups] are the codes of the two languages. *)
Definition keys_ok (langGroups : gmap string (list nat)) : Prop :=
  forall k, is_Some (langGroups !! k) <-> k = "en" \/ k = "mk".

(** The elements after the fieldsets at the positions [idxs] have been
    emptied and hidden, one position after the other. *)
Definition hide (idxs : list nat) (els : list element) : list element :=
  foldl (fun l i => alter emptied i l) els idxs.

(** A page with an English group and a group whose language class names
    a property every object inherits. *)
Definition inherited_page : list element :=
  [ fieldset "module aligned lang-tab lang-en" [row "title_en"];
    fieldset "module aligned lang-tab lang-constructor" [row "title_x"] ].



(** The per-language classes of a field group, among its class
    tokens. *)
Definition token_langs (e : element) : list string :=
  filter (fun c => Str.startsWith c "lang-" = true /\ c <> "lang-tab")
         (Str.tokens (el_class e)).


(** ** Further notions for the statements *)

(** What a handler leaves alone in a header and in a panel: all but
    the active class. *)
Definition h_frame (h : header) : list string * string * string * option string :=
  (JQ.removeClass "active" (h_class h), h_lang h, h_text h, h_title h).

Definition p_frame (p : panel) : list string * string * list node :=
  (JQ.removeClass "active" (p_class p), p_lang p, p_kids p).

(** The codes of the languages with a marked group on the page, in the
    order of [languages]. *)
Definition populated (els : list element) : list string :=
  code <$> filter (fun lang => existsb (tagged (code lang)) els = true) languages.

(** A class name whose code names a property that [langGroups] inherits
    and does not hold itself. *)
Definition inherited_class (className : string) : bool :=
  Str.startsWith className "lang-"
  && bool_decide (Str.replace "lang-" "" className ∈ object_prototype).

(** A marked field group with such a class name. *)
Definition inherits (e : element) : bool :=
  marked e && existsb inherited_class (Str.split Str.is_space (el_class e)).

(** How often the class of the language [k] is among the class names
    the script reads off a class attribute. *)
Definition occurrences (k : string) (cls : string) : nat :=
  length (filter (fun cn => cn = "lang-" +:+ k) (Str.split Str.is_space cls)).

(** What the fieldset at position [i] has to give. *)
Definition content_at (els : list element) (i : nat) : list node :=
  from_option (fun e => content (el_kids e)) [] (els !! i).

(** The number of nodes, text included, of a tree and of a list of
    trees. *)
Fixpoint nodes (n : node) : nat :=
  match n with
  | Text _ => 1
  | Elem _ ks => S (list_sum (map nodes ks))
  end.

Definition weight (ks : list node) : nat := list_sum (map nodes ks).

(** An element with no [.module] element inside it. *)
Definition module_free (n : node) : Prop :=
  match n with
  | Elem _ ks => JQ.find "module" ks = []
  | Text _ => False
  end.

(** The test of the error scan, on a list of nodes. *)
Definition errors_in (ks : list node) : bool :=
  (0 <? length (JQ.find "errorlist" ks)) || (0 <? length (JQ.find "error" ks)).

(** Some marked group of the language [k] gives its panel an error
    marker. *)
Definition group_errors (k : string) (els : list element) : bool :=
  existsb (fun e => tagged k e && errors_in (content (el_kids e))) els.

(** ** The model on small inputs *)

Example split_two : Str.split Str.is_space "lang-tab lang-en" = ["lang-tab"; "lang-en"].
Proof. reflexivity. Qed.

Example split_gap : Str.split Str.is_space " a  b" = [""; "a"; ""; "b"].
Proof. reflexivity. Qed.

Example replace_first_only : Str.replace "lang-" "" "lang-lang-x" = "lang-x".
Proof. reflexivity. Qed.

Example tokens_tab :
  Str.tokens ("module  lang-tab" +:+ String (Ascii.ascii_of_nat 9) "lang-en")
  = ["module"; "lang-tab"; "lang-en"].
Proof. vm_compute. reflexivity. Qed.

Example addClass_once : JQ.addClass "active" ["lang-tab-header"; "active"] = ["lang-tab-header"; "active"].
Proof. reflexivity. Qed.

(** Nested [.module] elements all end up directly in the panel. *)
Example detached_nested :
  flat_map (JQ.detached "module") [Elem "module" [Text "a"; Elem "x module" [Text "b"]]]
  = [Elem "module" [Text "a"]; Elem "x module" [Text "b"]].
Proof. vm_compute. reflexivity. Qed.

(** A class such as [lang-constructor] finds an inherited property that
    has no [push]: the call throws before the document is touched. *)
Example init_inherited_key :
  initMultilingualTabs (page [fieldset "lang-tab lang-en lang-constructor" [row "t"]] ∅)
  = Threw (page [fieldset "lang-tab lang-en lang-constructor" [row "t"]] ∅).
Proof. vm_compute. reflexivity. Qed.

(** A fieldset with the classes of both languages is listed in both
    groups; its content goes to the first panel. *)
Example init_both_languages :
  (fun p => (p_lang p, p_kids p))
    <$> panels (state_of (initMultilingualTabs (page [fieldset "lang-tab lang-mk lang-en" [row "t"]] ∅)))
  = [("en", [row "t"]); ("mk", [])].
Proof. vm_compute. reflexivity. Qed.

(** ** Selections after an update *)

Section Selections.
Context (st : state).

Lemma headers_on_headers f : headers (on_headers f st) = f <$> headers st.
Proof.
  unfold headers, on_headers; simpl.
  induction (doc st) as [|[e|hs ps] d IH]; csimpl; [done|done|].
  by rewrite fmap_app, IH.
Qed.

Lemma panels_on_headers f : panels (on_headers f st) = panels st.
Proof.
  unfold panels, on_headers; simpl.
  induction (doc st) as [|[e|hs ps] d IH]; csimpl; [done|done|].
  by rewrite IH.
Qed.

Lemma headers_on_panels f : headers (on_panels f st) = headers st.
Proof.
  unfold headers, on_panels; simpl.
  induction (doc st) as [|[e|hs ps] d IH]; csimpl; [done|done|].
  by rewrite IH.
Qed.

Lemma panels_on_panels f : panels (on_panels f st) = f <$> panels st.
Proof.
  unfold panels, on_panels; simpl.
  induction (doc st) as [|[e|hs ps] d IH]; csimpl; [done|done|].
  by rewrite fmap_app, IH.
Qed.

End Selections.

Lemma headers_switchToTab c st :
  headers (switchToTab c st) = (fun h => h_set_class (switched c (h_lang h)) h) <$> headers st.
Proof.
  unfold switchToTab.
  rewrite headers_on_panels, headers_on_headers, headers_on_panels, headers_on_headers.
  rewrite <- list_fmap_compose. apply list_fmap_ext. intros _ h _. simpl.
  unfold switched, h_data_lang_is; simpl. by destruct (String.eqb (h_lang h) c).
Qed.

Lemma panels_switchToTab c st :
  panels (switchToTab c st) = (fun p => p_set_class (switched c (p_lang p)) p) <$> panels st.
Proof.
  unfold switchToTab.
  rewrite panels_on_panels, panels_on_headers, panels_on_panels, panels_on_headers.
  rewrite <- list_fmap_compose. apply list_fmap_ext. intros _ p _. simpl.
  unfold switched, p_data_lang_is; simpl. by destruct (String.eqb (p_lang p) c).
Qed.

Lemma localStorage_switchToTab c st : localStorage (switchToTab c st) = localStorage st.
Proof. reflexivity. Qed.

Lemma removeClass_not_in c l : c ∉ JQ.removeClass c l.
Proof. unfold JQ.removeClass. rewrite list_elem_of_filter. by intros [? _]. Qed.

Lemma removeClass_idem c l : JQ.removeClass c (JQ.removeClass c l) = JQ.removeClass c l.
Proof.
  unfold JQ.removeClass. induction l as [|x l IH]; [done|].
  rewrite filter_cons. case_decide; [|done].
  rewrite filter_cons. case_decide; [|done]. by rewrite IH.
Qed.

Lemma removeClass_app c l k :
  JQ.removeClass c (l ++ k) = JQ.removeClass c l ++ JQ.removeClass c k.
Proof. apply filter_app. Qed.

Lemma switched_idem c lang cls : switched c lang (switched c lang cls) = switched c lang cls.
Proof.
  unfold switched. destruct (String.eqb lang c).
  - unfold JQ.addClass at 2. rewrite bool_decide_eq_false_2 by apply removeClass_not_in.
    rewrite removeClass_app, removeClass_idem. simpl.
    unfold JQ.removeClass at 2. rewrite filter_cons, decide_False by naive_solver.
    rewrite filter_nil, app_nil_r. done.
  - apply removeClass_idem.
Qed.

Lemma switched_active c lang cls : "active" ∈ switched c lang cls <-> lang = c.
Proof.
  unfold switched. destruct (String.eqb_spec lang c) as [->|Hne].
  - split; [done|intros _]. unfold JQ.addClass.
    rewrite bool_decide_eq_false_2 by apply removeClass_not_in.
    set_solver.
  - split; [|done]. intros H. by apply removeClass_not_in in H.
Qed.

Lemma switched_once c lang cls :
  length (filter (fun x => x = "active") (switched c lang cls)) <= 1.
Proof.
  assert (Hz : filter (fun x => x = "active") (JQ.removeClass "active" cls) = []).
  { unfold JQ.removeClass. induction cls as [|x l IH]; [done|].
    rewrite filter_cons. case_decide; [|done].
    rewrite filter_cons. by case_decide. }
  unfold switched. destruct (String.eqb lang c).
  - unfold JQ.addClass. rewrite bool_decide_eq_false_2 by apply removeClass_not_in.
    rewrite filter_app, Hz, filter_cons. case_decide; simpl; lia.
  - rewrite Hz. simpl. lia.
Qed.

Lemma doc_switchToTab c st : doc (switchToTab c st) = switch_item c <$> doc st.
Proof.
  unfold switchToTab, on_panels, on_headers; simpl.
  rewrite <- !list_fmap_compose. apply list_fmap_ext. intros _ [e|hs ps] _; simpl; [done|].
  rewrite <- !list_fmap_compose. f_equal; apply list_fmap_ext.
  - intros _ h _. simpl. unfold switched, h_data_lang_is. simpl.
    by destruct (String.eqb (h_lang h) c).
  - intros _ p _. simpl. unfold switched, p_data_lang_is. simpl.
    by destruct (String.eqb (p_lang p) c).
Qed.

Lemma switch_item_idem c it : switch_item c (switch_item c it) = switch_item c it.
Proof.
  destruct it as [e|hs ps]; simpl; [done|].
  rewrite <- !list_fmap_compose. f_equal; apply list_fmap_ext.
  - intros _ [cls lang txt ttl] _. unfold h_set_class; simpl. by rewrite switched_idem.
  - intros _ [cls lang ks] _. unfold p_set_class; simpl. by rewrite switched_idem.
Qed.

Lemma state_eq (s t : state) : doc s = doc t -> localStorage s = localStorage t -> s = t.
Proof. destruct s, t; simpl; congruence. Qed.

Lemma header_switched c st h :
  h ∈ headers (switchToTab c st) ->
  exists h0, h0 ∈ headers st /\ h = h_set_class (switched c (h_lang h0)) h0.
Proof.
  rewrite headers_switchToTab, list_elem_of_fmap. intros (h0 & -> & Hin). eauto.
Qed.

Lemma panel_switched c st p :
  p ∈ panels (switchToTab c st) ->
  exists p0, p0 ∈ panels st /\ p = p_set_class (switched c (p_lang p0)) p0.
Proof.
  rewrite panels_switchToTab, list_elem_of_fmap. intros (p0 & -> & Hin). eauto.
Qed.

Lemma h_active_switched c st h :
  h ∈ headers (switchToTab c st) -> h_active h = true <-> h_lang h = c.
Proof.
  intros (h0 & _ & ->)%header_switched. unfold h_active; simpl.
  rewrite bool_decide_eq_true. apply switched_active.
Qed.

Lemma p_active_switched c st p :
  p ∈ panels (switchToTab c st) -> p_active p = true <-> p_lang p = c.
Proof.
  intros (p0 & _ & ->)%panel_switched. unfold p_active; simpl.
  rewrite bool_decide_eq_true. apply switched_active.
Qed.

(** Switching twice to one code, in the model. *)
Lemma switch_twice_same (langCode : string) (st : state) :
  switchToTab langCode (switchToTab langCode st) = switchToTab langCode st
  /\ (forall h, h ∈ headers (switchToTab langCode (switchToTab langCode st)) ->
        actives (h_class h) <= 1 /\ (h_active h = true <-> h_lang h = langCode))
  /\ (forall p, p ∈ panels (switchToTab langCode (switchToTab langCode st)) ->
        actives (p_class p) <= 1 /\ (p_active p = true <-> p_lang p = langCode)).
Proof.
  split; [|split].
  - apply state_eq; [|done].
    rewrite !doc_switchToTab, <- list_fmap_compose.
    apply list_fmap_ext. intros _ it _. apply switch_item_idem.
  - intros h Hh. split; [|by eapply h_active_switched].
    apply header_switched in Hh as (h0 & _ & ->). apply switched_once.
  - intros p Hp. split; [|by eapply p_active_switched].
    apply panel_switched in Hp as (p0 & _ & ->). apply switched_once.
Qed.

(** C8: in a state whose strip holds the only headers and panels, and
    for a plain language code, calling [switchToTab] twice in succession
    leaves the page as one call does, the same header and panel are the
    active ones, and no class list names the active class twice. *)
Theorem switchToTab_idempotent (langCode : string) (st : state) :
  state_ok st = true -> plain langCode = true ->
  switchToTab langCode (switchToTab langCode st) = switchToTab langCode st
  /\ (forall h, h ∈ headers (switchToTab langCode (switchToTab langCode st)) ->
        actives (h_class h) <= 1 /\ (h_active h = true <-> h_lang h = langCode))
  /\ (forall p, p ∈ panels (switchToTab langCode (switchToTab langCode st)) ->
        actives (p_class p) <= 1 /\ (p_active p = true <-> p_lang p = langCode)).
Proof. intros _ _. apply switch_twice_same. Qed.

Lemma switchToTab_idempotent_witness :
  let st := state_of (ready (page three_groups ∅)) in
  state_ok st = true /\ plain "mk" = true
  /\ switchToTab "mk" (switchToTab "mk" st) = switchToTab "mk" st.
Proof.
  intros st.
  assert (H1 : state_ok st = true) by (vm_compute; reflexivity).
  assert (H2 : plain "mk" = true) by reflexivity.
  split; [exact H1|]. split; [exact H2|].
  exact (proj1 (switchToTab_idempotent "mk" st H1 H2)).
Defined.

(** ** Storage *)

Lemma localStorage_scan ps st : localStorage (scan ps st).2 = localStorage st.
Proof. induction ps as [|p ps IH]; simpl; [done|]. by destruct (has_errors p). Qed.

Lemma localStorage_keydown e st : localStorage (keydown e st).1 = localStorage st.
Proof.
  unfold keydown. destruct (ctrlKey e || metaKey e); [|done].
  destruct (which e =? 49)%Z; [done|]. by destruct (which e =? 50)%Z.
Qed.

(** C6: a language code that has been saved is the code read back (a
    language code is not the empty string: the click handler, the one
    caller, saves the language of a header), and with nothing stored
    under the key the selection read is "en". *)
Theorem save_then_get (s : string) (st : state) :
  (s <> "" -> getSelectedTab (saveSelectedTab s st) = s)
  /\ (localStorage st !! storage_key = None -> getSelectedTab st = "en").
Proof.
  split.
  - intros Hs. unfold getSelectedTab, saveSelectedTab; simpl.
    rewrite lookup_insert_eq. simpl.
    destruct (String.eqb_spec s ""); [done|done].
  - intros Hnone. unfold getSelectedTab. by rewrite Hnone.
Qed.

Lemma save_then_get_witness :
  "mk" <> "" /\ getSelectedTab (saveSelectedTab "mk" (page [] ∅)) = "mk"
  /\ getSelectedTab (page [] ∅) = "en".
Proof.
  split; [done|]. split.
  - apply (save_then_get "mk" (page [] ∅)). done.
  - apply (save_then_get "mk" (page [] ∅)). reflexivity.
Defined.

(** ** The deferred error scan *)

Lemma scan_clean ps st :
  Forall (fun q => has_errors q = false) ps -> scan ps st = (ps, st).
Proof.
  induction 1 as [|q ps Hq _ IH]; simpl; [done|]. by rewrite Hq, IH.
Qed.

Lemma scan_first clean p rest st :
  Forall (fun q => has_errors q = false) clean ->
  has_errors p = true ->
  scan (clean ++ p :: rest) st = (clean ++ [p], switchToTab (p_lang p) st).
Proof.
  intros Hclean Hp. induction Hclean as [|q ps Hq _ IH]; simpl.
  - by rewrite Hp.
  - by rewrite Hq, IH.
Qed.

(** The scan, in the model: it stops at the first panel with an error
    marker. *)
Lemma scan_stops_first (st : state) :
  (forall clean p rest,
      panels st = clean ++ p :: rest ->
      Forall (fun q => has_errors q = false) clean ->
      has_errors p = true ->
      scan (panels st) st = (clean ++ [p], switchToTab (p_lang p) st)
      /\ showTabWithErrors st = switchToTab (p_lang p) st
      /\ (exists p', panels (showTabWithErrors st) !! length clean = Some p'
                     /\ p_active p' = true /\ p_lang p' = p_lang p /\ p_kids p' = p_kids p)
      /\ (forall q, q ∈ panels (showTabWithErrors st) -> p_active q = true <-> p_lang q = p_lang p)
      /\ (forall h, h ∈ headers (showTabWithErrors st) -> h_active h = true <-> h_lang h = p_lang p))
  /\ (Forall (fun q => has_errors q = false) (panels st) ->
      scan (panels st) st = (panels st, st) /\ showTabWithErrors st = st).
Proof.
  split.
  - intros clean p rest Hps Hclean Hp.
    assert (Hscan : scan (panels st) st = (clean ++ [p], switchToTab (p_lang p) st)).
    { rewrite Hps. by apply scan_first. }
    assert (Hshow : showTabWithErrors st = switchToTab (p_lang p) st).
    { unfold showTabWithErrors. by rewrite Hscan. }
    split; [done|]. split; [done|]. rewrite Hshow. split; [|split].
    + exists (p_set_class (switched (p_lang p) (p_lang p)) p).
      rewrite panels_switchToTab, Hps, list_lookup_fmap.
      rewrite lookup_app_r, Nat.sub_diag by lia. simpl. split; [done|].
      split; [|done]. unfold p_active; simpl.
      rewrite bool_decide_eq_true. by apply switched_active.
    + intros q Hq. by eapply p_active_switched.
    + intros h Hh. by eapply h_active_switched.
  - intros Hclean. unfold showTabWithErrors. by rewrite scan_clean.
Qed.

(** C5: in a state whose strip holds the only headers and panels, the
    scan goes through the panels in document order, which is the order
    they were built in; at the first panel with an error marker it
    switches to that panel's language and looks at no later panel; with
    no marker in any panel it leaves the page as it is. *)
Theorem showTabWithErrors_first_error (st : state) :
  state_ok st = true ->
  (forall clean p rest,
      panels st = clean ++ p :: rest ->
      Forall (fun q => has_errors q = false) clean ->
      has_errors p = true ->
      scan (panels st) st = (clean ++ [p], switchToTab (p_lang p) st)
      /\ showTabWithErrors st = switchToTab (p_lang p) st
      /\ (exists p', panels (showTabWithErrors st) !! length clean = Some p'
                     /\ p_active p' = true /\ p_lang p' = p_lang p /\ p_kids p' = p_kids p)
      /\ (forall q, q ∈ panels (showTabWithErrors st) -> p_active q = true <-> p_lang q = p_lang p)
      /\ (forall h, h ∈ headers (showTabWithErrors st) -> h_active h = true <-> h_lang h = p_lang p))
  /\ (Forall (fun q => has_errors q = false) (panels st) ->
      scan (panels st) st = (panels st, st) /\ showTabWithErrors st = st).
Proof. intros _. apply scan_stops_first. Qed.

Lemma showTabWithErrors_first_error_witness :
  let st := state_of (ready (page three_groups_mk_error ∅)) in
  let en := {| p_class := ["lang-tab-content"; "active"]; p_lang := "en";
               p_kids := [row "title_en"; row "body_en"] |} in
  let mk := {| p_class := ["lang-tab-content"]; p_lang := "mk";
               p_kids := [failed_row "title_mk"] |} in
  state_ok st = true
  /\ panels st = [en] ++ mk :: []
  /\ Forall (fun q => has_errors q = false) [en]
  /\ has_errors mk = true
  /\ scan (panels st) st = ([en] ++ [mk], switchToTab (p_lang mk) st)
  /\ showTabWithErrors st = switchToTab "mk" st.
Proof.
  intros st en mk.
  assert (Hok : state_ok st = true) by (vm_compute; reflexivity).
  assert (Hps : panels st = [en] ++ mk :: []) by (vm_compute; reflexivity).
  assert (Hclean : Forall (fun q => has_errors q = false) [en]) by (repeat constructor).
  assert (Herr : has_errors mk = true) by reflexivity.
  split; [exact Hok|]. split; [exact Hps|]. split; [exact Hclean|]. split; [exact Herr|].
  destruct (proj1 (showTabWithErrors_first_error st Hok) _ _ _ Hps Hclean Herr)
    as (H1 & H2 & _).
  split; [exact H1|exact H2].
Defined.

(** C10: the error scan leaves browser storage as it finds it, so the
    language it makes visible need not be the stored one: on a page with
    a failed Macedonian field and "en" stored, the scan shows "mk" and the
    stored selection still reads "en". *)
Theorem showTabWithErrors_keeps_storage :
  (forall st, localStorage (showTabWithErrors st) = localStorage st
              /\ getSelectedTab (showTabWithErrors st) = getSelectedTab st)
  /\ (exists st, reachable st
                 /\ active_panels (showTabWithErrors st) = ["mk"]
                 /\ active_headers (showTabWithErrors st) = ["mk"]
                 /\ localStorage (showTabWithErrors st) !! storage_key = Some "en"
                 /\ getSelectedTab (showTabWithErrors st) = "en").
Proof.
  split.
  - intros st.
    assert (H : localStorage (showTabWithErrors st) = localStorage st)
      by apply localStorage_scan.
    split; [done|]. unfold getSelectedTab. by rewrite H.
  - exists (state_of (ready (page three_groups_mk_error {[storage_key := "en"]}))).
    split.
    + apply (reach_ready three_groups_mk_error {[storage_key := "en"]});
        vm_compute; reflexivity.
    + vm_compute. done.
Qed.

(** ** The keyboard shortcut and the persisted selection *)

(** C1: the keydown handler never writes to browser storage.  At a page
    with an English and a Macedonian tab and "en" stored, Ctrl+2 makes the
    Macedonian header and panel the active ones and calls
    [preventDefault], and the stored selection is still "en"; a click on
    the Macedonian header stores "mk". *)
Theorem keydown_ctrl_2_leaves_storage :
  let st := state_of (ready (page three_groups {[storage_key := "en"]})) in
  let st' := (keydown ctrl_2 st).1 in
  (forall e s, localStorage (keydown e s).1 = localStorage s)
  /\ ready (page three_groups {[storage_key := "en"]}) = Returned st
  /\ (keydown ctrl_2 st).2 = true
  /\ active_headers st' = ["mk"]
  /\ active_panels st' = ["mk"]
  /\ localStorage st' !! storage_key = Some "en"
  /\ getSelectedTab st' = "en"
  /\ Forall (fun h => h_lang h = "mk" -> getSelectedTab (click h st) = "mk") (headers st).
Proof.
  split; [apply localStorage_keydown|].
  vm_compute. repeat split. repeat constructor; discriminate.
Qed.

(** ** The fallback of the initial selection *)

(** C2, at a page whose only marked group is Macedonian, with nothing
    stored: the one header built is "mk", the selection falls back to
    "en", and [initMultilingualTabs] returns with no header and no panel
    active. *)
Theorem init_mk_only_nothing_active :
  let st := state_of (initMultilingualTabs (page mk_only ∅)) in
  initMultilingualTabs (page mk_only ∅) = Returned st
  /\ h_lang <$> headers st = ["mk"]
  /\ p_lang <$> panels st = ["mk"]
  /\ getSelectedTab st = "en"
  /\ active_headers st = []
  /\ active_panels st = [].
Proof. vm_compute. repeat split. Qed.

(** ** Class names and language codes *)

Lemma replace_unfold pat rep s :
  Str.replace pat rep s =
    if String.prefix pat s
    then rep +:+ String.substring (String.length pat) (String.length s - String.length pat) s
    else match s with
         | EmptyString => EmptyString
         | String c s' => String c (Str.replace pat rep s')
         end.
Proof. by destruct s. Qed.

Lemma substring_all s : String.substring 0 (String.length s) s = s.
Proof. induction s as [|c s IH]; simpl; [done|]. by rewrite IH. Qed.

Lemma prefix_app pat k : String.prefix pat (pat +:+ k) = true.
Proof.
  induction pat as [|c pat IH]; simpl; [by destruct k|].
  by destruct (ascii_dec c c).
Qed.

Lemma substring_app pat k :
  String.substring (String.length pat) (String.length (pat +:+ k) - String.length pat) (pat +:+ k) = k.
Proof.
  induction pat as [|c pat IH]; simpl.
  - rewrite Nat.sub_0_r. apply substring_all.
  - apply IH.
Qed.

Lemma replace_prefix pat k : Str.replace pat "" (pat +:+ k) = k.
Proof. by rewrite replace_unfold, prefix_app, substring_app. Qed.

Lemma prefix_split pat s : String.prefix pat s = true -> exists k, s = pat +:+ k.
Proof.
  revert s. induction pat as [|c pat IH]; intros s.
  - by exists s.
  - destruct s as [|c' s]; simpl; [done|].
    destruct (ascii_dec c c') as [->|]; [|done].
    intros [k ->]%IH. by exists k.
Qed.

Lemma lang_class_code cn :
  Str.startsWith cn "lang-" = true -> cn = "lang-" +:+ Str.replace "lang-" "" cn.
Proof.
  intros [k ->]%prefix_split. by rewrite replace_prefix.
Qed.

(** ** The marked field groups *)

Lemma elem_of_select_from d i j :
  j ∈ select_from i d <->
  exists it, i <= j /\ d !! (j - i) = Some it /\ is_lang_tab it = true.
Proof.
  revert i. induction d as [|x d IH]; intros i; simpl.
  - split; [by intros ?%elem_of_nil|]. by intros (it & _ & ? & _).
  - rewrite elem_of_app, IH. split.
    + intros [Hx|(it & Hle & Hit & Hm)].
      * destruct (is_lang_tab x) eqn:Hm; [|by apply elem_of_nil in Hx].
        apply list_elem_of_singleton in Hx as ->. exists x.
        by rewrite Nat.sub_diag.
      * exists it. split; [lia|]. split; [|done].
        replace (j - i) with (S (j - S i)) by lia. done.
    + intros (it & Hle & Hit & Hm).
      destruct (decide (j = i)) as [->|Hne].
      * left. rewrite Nat.sub_diag in Hit. simpl in Hit. injection Hit as ->.
        rewrite Hm. by apply list_elem_of_singleton.
      * right. exists it. split; [lia|]. split; [|done].
        replace (j - i) with (S (j - S i)) in Hit by lia. done.
Qed.

Lemma elem_of_select_page els j :
  j ∈ select_lang_tab (Plain <$> els) <-> exists e, els !! j = Some e /\ marked e = true.
Proof.
  unfold select_lang_tab. rewrite elem_of_select_from, Nat.sub_0_r. split.
  - intros (it & _ & Hit & Hm). rewrite list_lookup_fmap in Hit.
    destruct (els !! j) as [e|]; [|done]. simpl in Hit. injection Hit as <-. eauto.
  - intros (e & He & Hm). exists (Plain e). split; [lia|].
    rewrite list_lookup_fmap, He. done.
Qed.

Lemma select_none d i :
  Forall (fun it => is_lang_tab it = false) d -> select_from i d = [].
Proof.
  intros H. revert i. induction H as [|x d Hx _ IH]; intros i; simpl; [done|].
  by rewrite Hx, IH.
Qed.

Lemma class_attr_page els j e : els !! j = Some e -> class_attr (Plain <$> els) j = el_class e.
Proof. intros He. unfold class_attr. by rewrite list_lookup_fmap, He. Qed.

Lemma headers_page els ls : headers (page els ls) = [].
Proof. unfold headers; simpl. induction els as [|e els IH]; csimpl; done. Qed.

Lemma panels_page els ls : panels (page els ls) = [].
Proof. unfold panels; simpl. induction els as [|e els IH]; csimpl; done. Qed.

(** A page none of whose sibling elements is marked. *)
Lemma unmarked_page (els : list element) (ls : gmap string string) :
  Forall (fun e => marked e = false) els ->
  select_lang_tab (doc (page els ls)) = []
  /\ initMultilingualTabs (page els ls) = Returned (page els ls)
  /\ ready (page els ls) = Returned (page els ls).
Proof.
  intros Hnone.
  assert (Hsel : select_lang_tab (doc (page els ls)) = []).
  { apply select_none. simpl. by apply Forall_fmap. }
  assert (Hinit : initMultilingualTabs (page els ls) = Returned (page els ls)).
  { unfold initMultilingualTabs. by rewrite Hsel. }
  split; [done|]. split; [done|].
  unfold ready. rewrite Hinit. unfold hints. by rewrite headers_page.
Qed.

(** C7: on a page where no element, at any depth, carries the marker
    class, [initMultilingualTabs] returns at its first test with the page
    as it found it: nothing is inserted and nothing is hidden.  When the
    page's markup has no header class either, the whole ready callback
    leaves it so. *)
Theorem init_without_marked_groups (els : list element) (ls : gmap string string) :
  Forall (fun e => marked e = false /\ JQ.find "lang-tab" (el_kids e) = []) els ->
  select_lang_tab (doc (page els ls)) = []
  /\ initMultilingualTabs (page els ls) = Returned (page els ls)
  /\ (form_ok els = true -> ready (page els ls) = Returned (page els ls)).
Proof.
  intros Hnone.
  assert (Htop : Forall (fun e => marked e = false) els).
  { eapply Forall_impl; [exact Hnone|]. by intros e [? _]. }
  destruct (unmarked_page els ls Htop) as (Hsel & Hinit & Hready).
  split; [exact Hsel|]. split; [exact Hinit|]. intros _. exact Hready.
Qed.

Lemma init_without_marked_groups_witness :
  let els := [fieldset "module aligned" [row "slug"]] in
  Forall (fun e => marked e = false /\ JQ.find "lang-tab" (el_kids e) = []) els
  /\ form_ok els = true
  /\ initMultilingualTabs (page els ∅) = Returned (page els ∅)
  /\ ready (page els ∅) = Returned (page els ∅).
Proof.
  intros els.
  assert (H : Forall (fun e => marked e = false /\ JQ.find "lang-tab" (el_kids e) = []) els).
  { repeat constructor. }
  assert (Hok : form_ok els = true) by (vm_compute; reflexivity).
  destruct (init_without_marked_groups els ∅ H) as (_ & Hinit & Hready).
  split; [exact H|]. split; [exact Hok|]. split; [exact Hinit|exact (Hready Hok)].
Defined.

(** ** Grouping the fieldsets by language *)

Lemma empty_groups_keys : keys_ok empty_groups.
Proof.
  intros k. unfold empty_groups; simpl.
  rewrite !lookup_insert_is_Some, lookup_empty, is_Some_alt. split.
  - intros [<-|[_ [<-|[_ []]]]]; auto.
  - intros [-> | ->]; [right; split; [done|by left]|by left].
Qed.

Lemma group_empty_groups k : group empty_groups k = [].
Proof.
  unfold group, empty_groups; simpl.
  destruct (decide (k = "mk")) as [->|]; [done|].
  rewrite lookup_insert_ne by done.
  destruct (decide (k = "en")) as [->|]; [done|].
  by rewrite lookup_insert_ne.
Qed.

Lemma get_own g k : keys_ok g -> k = "en" \/ k = "mk" -> get g k = Own (group g k).
Proof.
  intros Hk Hkn. unfold get, group. destruct (proj2 (Hk k) Hkn) as [a ->]. done.
Qed.

Lemma keys_ok_insert g k a : keys_ok g -> k = "en" \/ k = "mk" -> keys_ok (<[k := a]> g).
Proof.
  intros Hk Hkn k'. rewrite lookup_insert_is_Some, (Hk k'). split.
  - intros [<-|[_ ?]]; done.
  - intros Hk'. destruct (decide (k = k')); [by left|by right].
Qed.

Lemma group_insert g k a k' :
  group (<[k := a]> g) k' = if decide (k = k') then a else group g k'.
Proof. unfold group. rewrite lookup_insert. by case_decide. Qed.

(** One class name either leaves the groups alone or, being the class of
    a known language, puts the fieldset at the end of that language's
    group. *)
Lemma categorize_class_Some i cn g g' :
  keys_ok g ->
  categorize_class i cn g = Some g' ->
  g' = g \/ exists k, cn = "lang-" +:+ k /\ (k = "en" \/ k = "mk")
                      /\ g' = <[k := group g k ++ [i]]> g.
Proof.
  intros Hk. unfold categorize_class.
  destruct (Str.startsWith cn "lang-") eqn:Hpre; simpl; [|intros [= <-]; by left].
  destruct (String.eqb cn "lang-tab"); simpl; [intros [= <-]; by left|].
  unfold get. destruct (g !! Str.replace "lang-" "" cn) as [a|] eqn:Hg.
  - intros [= <-]. right. exists (Str.replace "lang-" "" cn).
    split; [by apply lang_class_code|]. split; [apply Hk; eauto|].
    unfold group. by rewrite Hg.
  - case_bool_decide; [done|]. intros [= <-]. by left.
Qed.

Lemma categorize_class_known i k g :
  keys_ok g -> k = "en" \/ k = "mk" ->
  categorize_class i ("lang-" +:+ k) g = Some (<[k := group g k ++ [i]]> g).
Proof.
  intros Hk Hkn. unfold categorize_class.
  rewrite replace_prefix, (get_own g k Hk Hkn).
  by destruct Hkn as [-> | ->].
Qed.


Lemma categorize_classes_Some i cls g g' :
  keys_ok g ->
  categorize_classes i cls g = Some g' ->
  keys_ok g'
  /\ (forall k j, j ∈ group g k -> j ∈ group g' k)
  /\ (forall k j, j ∈ group g' k ->
        j ∈ group g k \/ (j = i /\ ("lang-" +:+ k) ∈ cls /\ (k = "en" \/ k = "mk")))
  /\ (forall k, k = "en" \/ k = "mk" -> ("lang-" +:+ k) ∈ cls -> i ∈ group g' k).
Proof.
  revert g. induction cls as [|cn cls IH]; intros g Hk; simpl.
  - intros [= <-]. split; [done|]. split; [done|]. split; [by left|].
    by intros k _ ?%elem_of_nil.
  - destruct (categorize_class i cn g) as [g1|] eqn:Hcn; [|done]. intros Hrest.
    assert (Hstep : keys_ok g1
                    /\ (forall k j, j ∈ group g k -> j ∈ group g1 k)
                    /\ (forall k j, j ∈ group g1 k ->
                          j ∈ group g k \/ (j = i /\ cn = "lang-" +:+ k /\ (k = "en" \/ k = "mk")))).
    { destruct (categorize_class_Some _ _ _ _ Hk Hcn) as [->|(k0 & -> & Hkn & ->)].
      - split; [done|]. split; [done|]. by left.
      - split; [by apply keys_ok_insert|]. split.
        + intros k j Hj. rewrite group_insert. case_decide as Heq; [|done].
          subst k0. apply elem_of_app. by left.
        + intros k j. rewrite group_insert. case_decide as Heq; [|by left].
          subst k0. rewrite elem_of_app, list_elem_of_singleton.
          intros [?| ->]; [by left|by right]. }
    destruct Hstep as (Hk1 & Hmono1 & Hsound1).
    destruct (IH g1 Hk1 Hrest) as (Hk' & Hmono & Hsound & Hcompl).
    split; [done|]. split; [by auto|]. split.
    + intros k j Hj. destruct (Hsound k j Hj) as [Hj1|(-> & Hin & Hkn)].
      * destruct (Hsound1 k j Hj1) as [?|(-> & -> & Hkn)]; [by left|].
        right. split; [done|]. split; [by left|done].
      * right. split; [done|]. split; [by right|done].
    + intros k Hkn [<-|Hin]%elem_of_cons; [|by apply Hcompl].
      apply Hmono. rewrite (categorize_class_known i k g Hk Hkn) in Hcn.
      injection Hcn as <-. rewrite group_insert, decide_True by done.
      apply elem_of_app. right. by apply list_elem_of_singleton.
Qed.


Lemma categorize_Some d idxs g g' :
  keys_ok g ->
  categorize d idxs g = Some g' ->
  keys_ok g'
  /\ (forall k j, j ∈ group g k -> j ∈ group g' k)
  /\ (forall k j, j ∈ group g' k ->
        j ∈ group g k
        \/ (j ∈ idxs /\ ("lang-" +:+ k) ∈ Str.split Str.is_space (class_attr d j)
            /\ (k = "en" \/ k = "mk")))
  /\ (forall k j, k = "en" \/ k = "mk" -> j ∈ idxs ->
        ("lang-" +:+ k) ∈ Str.split Str.is_space (class_attr d j) -> j ∈ group g' k).
Proof.
  revert g. induction idxs as [|i idxs IH]; intros g Hk; simpl.
  - intros [= <-]. split; [done|]. split; [done|]. split; [by left|].
    by intros k j _ ?%elem_of_nil.
  - destruct (categorize_classes i _ g) as [g1|] eqn:Hi; [|done]. intros Hrest.
    destruct (categorize_classes_Some _ _ _ _ Hk Hi) as (Hk1 & Hmono1 & Hsound1 & Hcompl1).
    destruct (IH g1 Hk1 Hrest) as (Hk' & Hmono & Hsound & Hcompl).
    split; [done|]. split; [by auto|]. split.
    + intros k j Hj. destruct (Hsound k j Hj) as [Hj1|(Hin & Hcls & Hkn)].
      * destruct (Hsound1 k j Hj1) as [?|(-> & Hcls & Hkn)]; [by left|].
        right. split; [by left|done].
      * right. split; [by right|done].
    + intros k j Hkn [->|Hin]%elem_of_cons Hcls; [|by apply Hcompl].
      apply Hmono. by apply Hcompl1.
Qed.


(** ** Moving the content and hiding the fieldsets *)

Lemma move_fieldset_plain els acc i :
  (move_fieldset (Plain <$> els, acc) i).1 = Plain <$> alter emptied i els.
Proof.
  unfold move_fieldset; simpl. rewrite list_lookup_fmap.
  destruct (els !! i) as [e|] eqn:He; simpl.
  - rewrite <- list_fmap_insert. f_equal. apply list_eq. intros j.
    destruct (decide (i = j)) as [<-|Hne].
    + rewrite list_lookup_alter_eq, He, list_lookup_insert_eq; [done|].
      by eapply lookup_lt_Some.
    + by rewrite list_lookup_alter_ne, list_lookup_insert_ne.
  - f_equal. apply list_eq. intros j. rewrite list_lookup_alter.
    case_decide as Heq; [|done]. subst j. by rewrite He.
Qed.

Lemma move_fieldsets_plain idxs els acc :
  (foldl move_fieldset (Plain <$> els, acc) idxs).1 = Plain <$> hide idxs els.
Proof.
  revert els acc. induction idxs as [|i idxs IH]; intros els acc; simpl; [done|].
  destruct (move_fieldset (Plain <$> els, acc) i) as [d acc'] eqn:Hmv.
  pose proof (move_fieldset_plain els acc i) as Hd. rewrite Hmv in Hd. simpl in Hd.
  subst d. apply IH.
Qed.

Lemma hide_lookup idxs els j e' :
  hide idxs els !! j = Some e' ->
  exists e, els !! j = Some e
            /\ el_class e' = el_class e
            /\ (j ∉ idxs -> e' = e)
            /\ (j ∈ idxs \/ el_hidden e = true -> el_hidden e' = true).
Proof.
  revert els. induction idxs as [|i idxs IH]; intros els; simpl.
  - intros He'. exists e'. split; [done|]. split; [done|]. split; [done|].
    by intros [?%elem_of_nil|?].
  - intros (e1 & He1 & Hcls & Hsame & Hhid)%IH.
    rewrite list_lookup_alter in He1. case_decide as Heq.
    + subst j. destruct (els !! i) as [e|] eqn:He; [|done].
      simpl in He1. injection He1 as <-. exists e.
      split; [done|]. split; [done|]. split.
      * intros []. by left.
      * intros _. destruct (decide (i ∈ idxs)) as [Hin|Hnin]; [by apply Hhid; left|].
        by rewrite (Hsame Hnin).
    + exists e1. split; [done|]. split; [done|]. split.
      * intros Hnin. apply Hsame. intros Hin. apply Hnin. by right.
      * intros [[->|Hin]%elem_of_cons|Hh]; [done|apply Hhid; by left|apply Hhid; by right].
Qed.

Lemma length_hide idxs els : length (hide idxs els) = length els.
Proof.
  revert els. induction idxs as [|i idxs IH]; intros els; [done|].
  change (hide (i :: idxs) els) with (hide idxs (alter emptied i els)).
  by rewrite IH, length_alter.
Qed.

Lemma build_content_page g els ps lang :
  exists ks,
    build_content g (Plain <$> els, ps) lang
    = (Plain <$> hide (group g (code lang)) els,
       ps ++ if 0 <? length (group g (code lang)) then [tabContent lang ks] else []).
Proof.
  unfold build_content; simpl. destruct (0 <? length (group g (code lang))) eqn:Hne.
  - eexists. by rewrite move_fieldsets_plain.
  - exists []. rewrite app_nil_r.
    destruct (group g (code lang)); [done|]. simpl in Hne. discriminate.
Qed.

Lemma build_contents_page g els :
  exists ps,
    build_contents g (Plain <$> els)
    = (Plain <$> hide (group g "mk") (hide (group g "en") els), ps)
    /\ p_lang <$> ps
       = flat_map (fun lang => if 0 <? length (group g (code lang)) then [code lang] else [])
                  languages.
Proof.
  set (en := {| code := "en"; name := "English"; class := "lang-en" |}).
  set (mk := {| code := "mk"; name := "Македонски"; class := "lang-mk" |}).
  change (build_contents g (Plain <$> els))
    with (build_content g (build_content g (Plain <$> els, []) en) mk).
  destruct (build_content_page g els [] en) as (ks1 & ->).
  destruct (build_content_page g (hide (group g (code en)) els)
              ([] ++ if 0 <? length (group g (code en)) then [tabContent en ks1] else [])
              mk) as (ks2 & ->).
  eexists. split; [done|].
  rewrite fmap_app. unfold languages. fold en mk. simpl.
  by destruct (0 <? length (group g "en")), (0 <? length (group g "mk")).
Qed.

(** ** The document after [initMultilingualTabs] *)

Lemma elements_of_plain els : elements_of (Plain <$> els) = els.
Proof.
  induction els as [|e els IH]; [done|].
  change (elements_of (Plain <$> e :: els)) with (e :: elements_of (Plain <$> els)).
  by rewrite IH.
Qed.

Lemma elements_of_before k hs ps d :
  elements_of (before k (LangTabs hs ps) d) = elements_of d.
Proof.
  unfold elements_of, before. rewrite omap_app. simpl.
  by rewrite <- omap_app, take_drop.
Qed.

Lemma elements_of_switch c d : elements_of (switch_item c <$> d) = elements_of d.
Proof.
  induction d as [|[e|hs ps] d IH]; [done| |done].
  change (elements_of (switch_item c <$> Plain e :: d))
    with (e :: elements_of (switch_item c <$> d)).
  by rewrite IH.
Qed.

Lemma headers_plain els : flat_map headers_of (Plain <$> els) = [].
Proof. induction els as [|e els IH]; csimpl; done. Qed.

Lemma panels_plain els : flat_map panels_of (Plain <$> els) = [].
Proof. induction els as [|e els IH]; csimpl; done. Qed.

Lemma headers_before k hs ps els ls :
  headers {| doc := before k (LangTabs hs ps) (Plain <$> els); localStorage := ls |} = hs.
Proof.
  unfold headers, before; simpl. rewrite flat_map_app. simpl.
  rewrite <- fmap_take, <- fmap_drop, !headers_plain. by rewrite app_nil_r.
Qed.

Lemma panels_before k hs ps els ls :
  panels {| doc := before k (LangTabs hs ps) (Plain <$> els); localStorage := ls |} = ps.
Proof.
  unfold panels, before; simpl. rewrite flat_map_app. simpl.
  rewrite <- fmap_take, <- fmap_drop, !panels_plain. by rewrite app_nil_r.
Qed.

(** The page that [initMultilingualTabs] returns once the groups are
    there: the fieldsets of the two groups emptied and hidden, the strip
    put in, and the selection switched to. *)
Lemma init_page els ls i0 rest g :
  select_lang_tab (Plain <$> els) = i0 :: rest ->
  categorize (Plain <$> els) (i0 :: rest) empty_groups = Some g ->
  exists ps sel,
    initMultilingualTabs (page els ls)
    = Returned (switchToTab sel
        {| doc := before i0 (LangTabs (build_headers g) ps)
                    (Plain <$> hide (group g "mk") (hide (group g "en") els));
           localStorage := ls |})
    /\ p_lang <$> ps
       = flat_map (fun lang => if 0 <? length (group g (code lang)) then [code lang] else [])
                  languages.
Proof.
  intros Hsel Hcat. destruct (build_contents_page g els) as (ps & Hbuild & Hlangs).
  exists ps. eexists. split; [|exact Hlangs].
  unfold initMultilingualTabs. simpl. rewrite Hsel, Hcat, Hbuild. simpl. reflexivity.
Qed.

(** The positions in a group are those of the marked fieldsets with the
    class of its language. *)
Lemma elem_of_group els g k j :
  categorize (Plain <$> els) (select_lang_tab (Plain <$> els)) empty_groups = Some g ->
  j ∈ group g k <->
  (k = "en" \/ k = "mk") /\ exists e, els !! j = Some e /\ tagged k e = true.
Proof.
  intros Hcat.
  destruct (categorize_Some _ _ _ _ empty_groups_keys Hcat) as (_ & _ & Hsound & Hcompl).
  unfold tagged. split.
  - intros [Hj|(Hj & Hcls & Hkn)]%Hsound; [rewrite group_empty_groups in Hj; by apply elem_of_nil in Hj|].
    split; [done|]. apply elem_of_select_page in Hj as (e & He & Hm). exists e.
    split; [done|]. rewrite Hm. simpl. apply bool_decide_eq_true.
    by rewrite (class_attr_page els j e He) in Hcls.
  - intros (Hkn & e & He & (Hm & Hcls%bool_decide_eq_true)%andb_prop).
    apply Hcompl; [done| |by rewrite (class_attr_page els j e He)].
    apply elem_of_select_page. eauto.
Qed.

Lemma group_nonempty els g k :
  categorize (Plain <$> els) (select_lang_tab (Plain <$> els)) empty_groups = Some g ->
  k = "en" \/ k = "mk" ->
  (0 <? length (group g k)) = existsb (tagged k) els.
Proof.
  intros Hcat Hkn. apply eq_true_iff_eq. rewrite existsb_exists, Nat.ltb_lt. split.
  - destruct (group g k) as [|j l] eqn:Hg; simpl; [lia|]. intros _.
    assert (Hj : j ∈ group g k) by (rewrite Hg; by left).
    apply (elem_of_group els g k j Hcat) in Hj as (_ & e & He & Ht).
    exists e. split; [|done]. apply list_elem_of_In. by eapply list_elem_of_lookup_2.
  - intros (e & [j He]%list_elem_of_In%list_elem_of_lookup_1 & Ht).
    assert (Hj : j ∈ group g k) by (apply (elem_of_group els g k j Hcat); eauto).
    destruct (group g k); [by apply elem_of_nil in Hj|simpl; lia].
Qed.



Lemma h_lang_switched c (hs : list header) :
  h_lang <$> ((fun h => h_set_class (switched c (h_lang h)) h) <$> hs) = h_lang <$> hs.
Proof. rewrite <- list_fmap_compose. by apply list_fmap_ext. Qed.

Lemma p_lang_switched c (ps : list panel) :
  p_lang <$> ((fun p => p_set_class (switched c (p_lang p)) p) <$> ps) = p_lang <$> ps.
Proof. rewrite <- list_fmap_compose. by apply list_fmap_ext. Qed.

Lemma h_lang_build_headers g :
  h_lang <$> build_headers g
  = flat_map (fun lang => if 0 <? length (group g (code lang)) then [code lang] else [])
             languages.
Proof.
  unfold build_headers, languages; simpl.
  by destruct (0 <? length (group g "en")), (0 <? length (group g "mk")).
Qed.















(** The scenario of the specification: two English groups and one
    Macedonian group give two headers and two panels, the English panel
    with the content of two groups and the Macedonian panel with that of
    one. *)
Example three_groups_panels :
  let st := state_of (initMultilingualTabs (page three_groups ∅)) in
  h_lang <$> headers st = ["en"; "mk"]
  /\ (fun p => (p_lang p, p_kids p)) <$> panels st
     = [("en", [row "title_en"; row "body_en"]); ("mk", [row "title_mk"])]
  /\ el_hidden <$> elements_of (doc st) = [false; true; true; true].
Proof. vm_compute. done. Qed.

Lemma select_from_ge d i j : j ∈ select_from i d -> i <= j.
Proof. by intros (_ & ? & _)%elem_of_select_from. Qed.

Lemma select_first d i i0 rest j :
  select_from i d = i0 :: rest -> j ∈ select_from i d -> i0 <= j.
Proof.
  revert i. induction d as [|x d IH]; intros i; simpl; [done|].
  destruct (is_lang_tab x); simpl.
  - intros [= <- <-] [->|Hj%select_from_ge]%elem_of_cons; lia.
  - apply IH.
Qed.

Lemma lookup_before_here {A} k (x : A) (d : list A) :
  k <= length d -> (take k d ++ x :: drop k d) !! k = Some x.
Proof.
  intros Hk. rewrite lookup_app_r by (rewrite length_take; lia).
  rewrite length_take, Nat.min_l, Nat.sub_diag by lia. done.
Qed.

Lemma lookup_before_after {A} k (x : A) (d : list A) i :
  k <= i -> (take k d ++ x :: drop k d) !! S i = d !! i.
Proof.
  intros Hk. destruct (decide (k <= length d)) as [Hle|Hgt].
  - rewrite lookup_app_r by (rewrite length_take; lia).
    rewrite length_take, Nat.min_l by lia.
    replace (S i - k) with (S (i - k)) by lia. simpl.
    rewrite lookup_drop. f_equal. lia.
  - rewrite take_ge, drop_ge by lia.
    rewrite lookup_app_r by lia. rewrite (lookup_ge_None_2 d i) by lia.
    destruct (S i - length d) as [|n] eqn:Hn; [lia|]. simpl. apply lookup_nil.
Qed.

(** C9, at a page with an English group and a group of class
    [lang-constructor]: the second group matches no known language, and
    [langGroups["constructor"]] is the inherited constructor, which is
    truthy and has no [push]: [initMultilingualTabs] throws while it
    groups the fieldsets, the ready callback ends there, and no strip is
    built: the page has no header and no panel and the English group is
    not hidden. *)
Theorem init_inherited_class_throws :
  form_ok inherited_page = true
  /\ marked <$> inherited_page = [true; true]
  /\ token_langs <$> inherited_page = [["lang-en"]; ["lang-constructor"]]
  /\ initMultilingualTabs (page inherited_page ∅) = Threw (page inherited_page ∅)
  /\ ready (page inherited_page ∅) = Threw (page inherited_page ∅)
  /\ headers (state_of (ready (page inherited_page ∅))) = []
  /\ panels (state_of (ready (page inherited_page ∅))) = []
  /\ el_hidden <$> elements_of (doc (state_of (ready (page inherited_page ∅))))
     = [false; false].
Proof. vm_compute. repeat split. Qed.

(** ** The languages of the strip are distinct *)

Lemma h_lang_hints st : h_lang <$> headers (hints st) = h_lang <$> headers st.
Proof.
  unfold hints. destruct (0 <? length (headers st)); [|done].
  rewrite !headers_on_headers, <- !list_fmap_compose. apply list_fmap_ext.
  intros _ h _. simpl.
  destruct (h_data_lang_is "en" h); simpl;
    by destruct (h_data_lang_is "mk" _).
Qed.

Lemma panels_hints st : panels (hints st) = panels st.
Proof.
  unfold hints. destruct (0 <? length (headers st)); [|done].
  by rewrite !panels_on_headers.
Qed.

Lemma populated_NoDup g :
  NoDup (flat_map (fun lang => if 0 <? length (group g (code lang)) then [code lang] else [])
                  languages).
Proof.
  unfold languages; simpl.
  destruct (0 <? length (group g "en")), (0 <? length (group g "mk")); simpl;
    repeat (apply NoDup_cons; split;
            [intros Hin; repeat (apply elem_of_cons in Hin as [Hin|Hin]; [discriminate Hin|]);
             by apply elem_of_nil in Hin|]);
    apply NoDup_nil_2.
Qed.

Lemma ready_distinct els ls st :
  ready (page els ls) = Returned st ->
  NoDup (h_lang <$> headers st) /\ NoDup (p_lang <$> panels st).
Proof.
  unfold ready.
  destruct (select_lang_tab (Plain <$> els)) as [|i0 rest] eqn:Hsel.
  - unfold initMultilingualTabs; simpl. rewrite Hsel. intros [= <-].
    rewrite h_lang_hints, panels_hints, headers_page, panels_page.
    split; apply NoDup_nil_2.
  - destruct (categorize (Plain <$> els) (i0 :: rest) empty_groups) as [g|] eqn:Hcat.
    + destruct (init_page els ls i0 rest g Hsel Hcat) as (ps & sel & -> & Hlangs).
      intros [= <-]. rewrite h_lang_hints, panels_hints.
      rewrite headers_switchToTab, panels_switchToTab, headers_before, panels_before.
      rewrite h_lang_switched, p_lang_switched, h_lang_build_headers, Hlangs.
      split; apply populated_NoDup.
    + unfold initMultilingualTabs; simpl. by rewrite Hsel, Hcat.
Qed.

Lemma scan_result ps st :
  (scan ps st).2 = st \/ exists c, (scan ps st).2 = switchToTab c st.
Proof.
  induction ps as [|p ps IH]; simpl; [by left|].
  destruct (has_errors p); simpl; [right; eauto|done].
Qed.

Lemma keydown_result e st :
  (keydown e st).1 = st \/ exists c, (keydown e st).1 = switchToTab c st.
Proof.
  unfold keydown. destruct (ctrlKey e || metaKey e); [|by left].
  destruct (which e =? 49)%Z; [right; eauto|].
  destruct (which e =? 50)%Z; [right; eauto|by left].
Qed.

Lemma langs_switchToTab c st :
  h_lang <$> headers (switchToTab c st) = h_lang <$> headers st
  /\ p_lang <$> panels (switchToTab c st) = p_lang <$> panels st.
Proof.
  by rewrite headers_switchToTab, panels_switchToTab, h_lang_switched, p_lang_switched.
Qed.

(** On every page the script has set up, no two headers and no two
    panels are of one language. *)
Lemma reachable_distinct st :
  reachable st -> NoDup (h_lang <$> headers st) /\ NoDup (p_lang <$> panels st).
Proof.
  induction 1 as [els ls st _ _ Hready|h st _ IH _|e st _ IH|st _ IH].
  - by eapply ready_distinct.
  - unfold click. destruct (langs_switchToTab (h_lang h) st) as [Hh Hp].
    unfold headers, panels in *. simpl in *. by rewrite Hh, Hp.
  - destruct (keydown_result e st) as [->|[c ->]]; [done|].
    destruct (langs_switchToTab c st) as [-> ->]. done.
  - unfold showTabWithErrors.
    destruct (scan_result (panels st) st) as [->|[c ->]]; [done|].
    destruct (langs_switchToTab c st) as [-> ->]. done.
Qed.

Lemma filter_at_most_one {A} (f : A -> string) (P : A -> Prop) `{forall x, Decision (P x)}
    (c : string) (l : list A) :
  NoDup (f <$> l) -> (forall x, x ∈ l -> P x -> f x = c) -> length (filter P l) <= 1.
Proof.
  induction l as [|x l IH]; csimpl; [lia|].
  intros [Hx Hnd]%NoDup_cons HP. rewrite filter_cons. case_decide as HPx.
  - assert (Hnone : filter P l = []).
    { destruct (filter P l) as [|y k] eqn:Hf; [done|].
      assert (Hy : y ∈ filter P l) by (rewrite Hf; by left).
      apply list_elem_of_filter in Hy as [HPy Hy]. destruct Hx.
      rewrite (HP x) by (done || by left). rewrite <- (HP y) by (done || by right).
      by apply list_elem_of_fmap_2. }
    rewrite Hnone. simpl. lia.
  - apply IH; [done|]. intros y Hy. apply HP. by right.
Qed.

Lemma filter_none {A} (P : A -> Prop) `{forall x, Decision (P x)} (l : list A) :
  (forall x, x ∈ l -> ~ P x) -> filter P l = [].
Proof.
  induction l as [|x l IH]; [done|]. intros HP. rewrite filter_cons, decide_False.
  - apply IH. intros y Hy. apply HP. by right.
  - apply HP. by left.
Qed.

(** What [switchToTab] does to the strip of a page the script has set
    up, in the model. *)
Lemma switch_one_active (st : state) (langCode : string) :
  reachable st ->
  headers (switchToTab langCode st)
  = (fun h => h_set_class (switched langCode (h_lang h)) h) <$> headers st
  /\ panels (switchToTab langCode st)
     = (fun p => p_set_class (switched langCode (p_lang p)) p) <$> panels st
  /\ (forall h, h ∈ headers (switchToTab langCode st) ->
        h_active h = true <-> h_lang h = langCode)
  /\ (forall p, p ∈ panels (switchToTab langCode st) ->
        p_active p = true <-> p_lang p = langCode)
  /\ (langCode ∉ h_lang <$> headers st -> active_headers (switchToTab langCode st) = [])
  /\ (langCode ∉ p_lang <$> panels st -> active_panels (switchToTab langCode st) = [])
  /\ length (active_headers (switchToTab langCode st)) <= 1
  /\ length (active_panels (switchToTab langCode st)) <= 1.
Proof.
  intros Hreach. destruct (reachable_distinct st Hreach) as [Hh Hp].
  destruct (langs_switchToTab langCode st) as [Hhl Hpl].
  split; [apply headers_switchToTab|]. split; [apply panels_switchToTab|].
  split; [intros h; apply h_active_switched|].
  split; [intros p; apply p_active_switched|].
  unfold active_headers, active_panels. rewrite !length_fmap.
  split; [|split; [|split]].
  - intros Hno. rewrite filter_none; [done|].
    intros h Hin Hact%(h_active_switched langCode st h Hin). apply Hno.
    rewrite <- Hhl. apply list_elem_of_fmap. by exists h.
  - intros Hno. rewrite filter_none; [done|].
    intros p Hin Hact%(p_active_switched langCode st p Hin). apply Hno.
    rewrite <- Hpl. apply list_elem_of_fmap. by exists p.
  - apply (filter_at_most_one h_lang _ langCode); [by rewrite Hhl|].
    intros h Hin. apply (h_active_switched langCode st h Hin).
  - apply (filter_at_most_one p_lang _ langCode); [by rewrite Hpl|].
    intros p Hin. apply (p_active_switched langCode st p Hin).
Qed.

(** C4: on a page the script has set up, and for a plain language code,
    [switchToTab] takes the active class off every header and panel and
    then gives it to those of the language asked for: afterwards a header
    or a panel is active exactly when its language is that code; with no
    header or panel of that language none is active; and at most one
    header and at most one panel are active. *)
Theorem switchToTab_at_most_one (st : state) (langCode : string) :
  reachable st -> plain langCode = true ->
  headers (switchToTab langCode st)
  = (fun h => h_set_class (switched langCode (h_lang h)) h) <$> headers st
  /\ panels (switchToTab langCode st)
     = (fun p => p_set_class (switched langCode (p_lang p)) p) <$> panels st
  /\ (forall h, h ∈ headers (switchToTab langCode st) ->
        h_active h = true <-> h_lang h = langCode)
  /\ (forall p, p ∈ panels (switchToTab langCode st) ->
        p_active p = true <-> p_lang p = langCode)
  /\ (langCode ∉ h_lang <$> headers st -> active_headers (switchToTab langCode st) = [])
  /\ (langCode ∉ p_lang <$> panels st -> active_panels (switchToTab langCode st) = [])
  /\ length (active_headers (switchToTab langCode st)) <= 1
  /\ length (active_panels (switchToTab langCode st)) <= 1.
Proof. intros Hreach _. by apply switch_one_active. Qed.

Lemma switchToTab_at_most_one_witness :
  let st := state_of (ready (page three_groups ∅)) in
  reachable st /\ plain "mk" = true /\ plain "fr" = true
  /\ active_headers (switchToTab "mk" st) = ["mk"]
  /\ active_headers (switchToTab "fr" st) = []
  /\ length (active_headers (switchToTab "mk" st)) <= 1
  /\ length (active_panels (switchToTab "mk" st)) <= 1.
Proof.
  intros st.
  assert (Hreach : reachable st).
  { apply (reach_ready three_groups ∅); vm_compute; reflexivity. }
  assert (Hmk : plain "mk" = true) by reflexivity.
  assert (Hfr : plain "fr" = true) by reflexivity.
  split; [exact Hreach|]. split; [exact Hmk|]. split; [exact Hfr|].
  split; [vm_compute; reflexivity|].
  destruct (switchToTab_at_most_one st "mk" Hreach Hmk) as (_ & _ & _ & _ & _ & _ & H1 & H2).
  destruct (switchToTab_at_most_one st "fr" Hreach Hfr) as (_ & _ & _ & _ & H3 & _).
  split; [|split; [exact H1|exact H2]].
  apply H3. vm_compute. intros Hin.
  repeat (apply elem_of_cons in Hin as [Hin|Hin]; [discriminate Hin|]).
  by apply elem_of_nil in Hin.
Defined.

(** * Further properties of the script *)

(** ** What [switchToTab] makes active *)

Lemma filter_eq_NoDup (c : string) (l : list string) :
  NoDup l -> filter (fun y => y = c) l = if bool_decide (c ∈ l) then [c] else [].
Proof.
  induction 1 as [|x l Hx Hnd IH]; [done|].
  rewrite filter_cons, IH. destruct (decide (x = c)) as [->|Hne].
  - rewrite (bool_decide_eq_false_2 (c ∈ l)) by done.
    by rewrite (bool_decide_eq_true_2 (c ∈ c :: l)) by (by left).
  - destruct (decide (c ∈ l)) as [Hin|Hin].
    + rewrite (bool_decide_eq_true_2 (c ∈ l)) by done.
      by rewrite (bool_decide_eq_true_2 (c ∈ x :: l)) by (by right).
    + rewrite (bool_decide_eq_false_2 (c ∈ l)) by done.
      rewrite (bool_decide_eq_false_2 (c ∈ x :: l)); [done|].
      intros [->|?]%elem_of_cons; done.
Qed.

Lemma active_headers_switchToTab c st :
  active_headers (switchToTab c st) = filter (fun y => y = c) (h_lang <$> headers st).
Proof.
  unfold active_headers. rewrite headers_switchToTab.
  induction (headers st) as [|h hs IH]; [done|]. csimpl.
  rewrite !filter_cons. unfold h_active at 1. simpl.
  destruct (decide (h_lang h = c)) as [Heq|Hne].
  - rewrite decide_True by (by apply bool_decide_eq_true, switched_active).
    csimpl. by rewrite IH.
  - rewrite decide_False; [apply IH|].
    by intros ?%bool_decide_eq_true%switched_active.
Qed.

Lemma active_panels_switchToTab c st :
  active_panels (switchToTab c st) = filter (fun y => y = c) (p_lang <$> panels st).
Proof.
  unfold active_panels. rewrite panels_switchToTab.
  induction (panels st) as [|p ps IH]; [done|]. csimpl.
  rewrite !filter_cons. unfold p_active at 1. simpl.
  destruct (decide (p_lang p = c)) as [Heq|Hne].
  - rewrite decide_True by (by apply bool_decide_eq_true, switched_active).
    csimpl. by rewrite IH.
  - rewrite decide_False; [apply IH|].
    by intros ?%bool_decide_eq_true%switched_active.
Qed.

Lemma switchToTab_twice c st : switchToTab c (switchToTab c st) = switchToTab c st.
Proof.
  apply state_eq; [|done].
  rewrite !doc_switchToTab, <- list_fmap_compose.
  apply list_fmap_ext. intros _ it _. apply switch_item_idem.
Qed.

Lemma removeClass_switched c lang cls :
  JQ.removeClass "active" (switched c lang cls) = JQ.removeClass "active" cls.
Proof.
  unfold switched. destruct (String.eqb lang c); [|apply removeClass_idem].
  unfold JQ.addClass. rewrite bool_decide_eq_false_2 by apply removeClass_not_in.
  rewrite removeClass_app, removeClass_idem.
  unfold JQ.removeClass at 2. rewrite filter_cons, decide_False by (by intros []).
  by rewrite filter_nil, app_nil_r.
Qed.

Lemma elements_of_switchToTab c st :
  elements_of (doc (switchToTab c st)) = elements_of (doc st).
Proof. by rewrite doc_switchToTab, elements_of_switch. Qed.

Lemma frame_switchToTab c st :
  h_frame <$> headers (switchToTab c st) = h_frame <$> headers st
  /\ p_frame <$> panels (switchToTab c st) = p_frame <$> panels st.
Proof.
  rewrite headers_switchToTab, panels_switchToTab, <- !list_fmap_compose.
  split; apply list_fmap_ext.
  - intros _ h _. unfold h_frame; simpl. by rewrite removeClass_switched.
  - intros _ p _. unfold p_frame; simpl. by rewrite removeClass_switched.
Qed.

(** ** What the handlers leave alone *)

(** What the handlers leave alone, in the model. *)
Lemma handlers_keep (st st' : state) :
  (exists h, st' = click h st) \/ (exists e, st' = (keydown e st).1)
  \/ st' = showTabWithErrors st ->
  elements_of (doc st') = elements_of (doc st)
  /\ h_frame <$> headers st' = h_frame <$> headers st
  /\ p_frame <$> panels st' = p_frame <$> panels st
  /\ (forall k, k <> storage_key -> localStorage st' !! k = localStorage st !! k).
Proof.
  assert (Hsw : forall c,
    elements_of (doc (switchToTab c st)) = elements_of (doc st)
    /\ h_frame <$> headers (switchToTab c st) = h_frame <$> headers st
    /\ p_frame <$> panels (switchToTab c st) = p_frame <$> panels st
    /\ (forall k, k <> storage_key ->
          localStorage (switchToTab c st) !! k = localStorage st !! k)).
  { intros c. split; [apply elements_of_switchToTab|].
    destruct (frame_switchToTab c st) as [Hh Hp]. done. }
  intros [[h ->]|[[e ->]| ->]].
  - destruct (Hsw (h_lang h)) as (He & Hh & Hp & _).
    split; [exact He|]. split; [exact Hh|]. split; [exact Hp|].
    intros k Hk. unfold click, saveSelectedTab; simpl. by rewrite lookup_insert_ne.
  - destruct (keydown_result e st) as [->|[c ->]]; [done|apply Hsw].
  - unfold showTabWithErrors.
    destruct (scan_result (panels st) st) as [->|[c ->]]; [done|apply Hsw].
Qed.

(** X1: in a state whose strip holds the only headers and panels, a
    click on one of the headers, a key press and the deferred error scan
    change nothing in the form's own elements, nothing in a header or a
    panel but the active class, and no storage key but
    [selectedLangTab]. *)
Theorem handlers_frame (st st' : state) :
  state_ok st = true ->
  (exists h, h ∈ headers st /\ st' = click h st) \/ (exists e, st' = (keydown e st).1)
  \/ st' = showTabWithErrors st ->
  elements_of (doc st') = elements_of (doc st)
  /\ h_frame <$> headers st' = h_frame <$> headers st
  /\ p_frame <$> panels st' = p_frame <$> panels st
  /\ (forall k, k <> storage_key -> localStorage st' !! k = localStorage st !! k).
Proof.
  intros _ Hstep. apply handlers_keep.
  destruct Hstep as [(h & _ & ->)|[Hkey|Hscan]]; eauto.
Qed.

Lemma handlers_frame_witness :
  let st := state_of (ready (page three_groups {[ "theme" := "dark" ]})) in
  let h := {| h_class := ["lang-tab-header"; "lang-mk"]; h_lang := "mk";
              h_text := "Македонски"; h_title := Some "Македонски (Ctrl+2)" |} in
  state_ok st = true /\ h ∈ headers st
  /\ elements_of (doc (click h st)) = elements_of (doc st)
  /\ localStorage (click h st) !! "theme" = Some "dark".
Proof.
  intros st h.
  assert (Hok : state_ok st = true) by (vm_compute; reflexivity).
  assert (Hh : h ∈ headers st).
  { assert (Hhs : headers st = [ {| h_class := ["lang-tab-header"; "lang-en"; "active"];
                                   h_lang := "en"; h_text := "English";
                                   h_title := Some "English (Ctrl+1)" |}; h ])
      by (vm_compute; reflexivity).
    rewrite Hhs. right. left. }
  destruct (handlers_frame st (click h st) Hok
              (or_introl (ex_intro _ h (conj Hh eq_refl))))
    as (He & _ & _ & Hk).
  split; [exact Hok|]. split; [exact Hh|]. split; [exact He|].
  rewrite (Hk "theme"); [|discriminate]. vm_compute. reflexivity.
Defined.

(** ** The selection [initMultilingualTabs] makes *)

Lemma populated_groups els g :
  categorize (Plain <$> els) (select_lang_tab (Plain <$> els)) empty_groups = Some g ->
  flat_map (fun lang => if 0 <? length (group g (code lang)) then [code lang] else [])
           languages
  = populated els.
Proof.
  intros Hcat. unfold populated, languages. simpl.
  rewrite (group_nonempty els g "en" Hcat), (group_nonempty els g "mk" Hcat) by auto.
  rewrite !filter_cons, filter_nil. simpl.
  destruct (existsb (tagged "en") els), (existsb (tagged "mk") els); reflexivity.
Qed.

Lemma populated_known els c : c ∈ populated els -> c = "en" \/ c = "mk".
Proof.
  unfold populated. intros (lang & -> & [_ Hin]%list_elem_of_filter)%list_elem_of_fmap.
  unfold languages in Hin.
  repeat (apply elem_of_cons in Hin as [->|Hin]); [by left|by right|].
  by apply elem_of_nil in Hin.
Qed.

Lemma populated_tagged els c :
  c ∈ populated els <-> (c = "en" \/ c = "mk") /\ existsb (tagged c) els = true.
Proof.
  unfold populated, languages. rewrite !filter_cons, filter_nil. simpl. split.
  - intros Hin.
    destruct (existsb (tagged "en") els) eqn:Hen, (existsb (tagged "mk") els) eqn:Hmk;
      simpl in Hin;
      repeat (apply elem_of_cons in Hin as [->|Hin]); try (by apply elem_of_nil in Hin);
      auto.
  - intros [[-> | ->] Hex]; rewrite Hex; simpl.
    + by left.
    + destruct (existsb (tagged "en") els); simpl; [right|]; by left.
Qed.

Lemma populated_distinct els : NoDup (populated els).
Proof.
  unfold populated, languages. rewrite !filter_cons, filter_nil. simpl.
  destruct (existsb (tagged "en") els), (existsb (tagged "mk") els); simpl;
    repeat (apply NoDup_cons; split;
            [intros Hin; repeat (apply elem_of_cons in Hin as [Hin|Hin]; [discriminate Hin|]);
             by apply elem_of_nil in Hin|]);
    apply NoDup_nil_2.
Qed.

Lemma no_header_of c (hs : list header) :
  (length (filter (fun h => h_data_lang_is c h = true) hs) =? 0)
  = negb (bool_decide (c ∈ h_lang <$> hs)).
Proof.
  induction hs as [|h hs IH]; [done|]. csimpl. rewrite filter_cons.
  destruct (h_data_lang_is c h) eqn:Hc.
  - rewrite decide_True by done. simpl. apply String.eqb_eq in Hc.
    rewrite bool_decide_eq_true_2; [done|]. rewrite Hc. by left.
  - rewrite decide_False by done. rewrite IH. f_equal.
    apply String.eqb_neq in Hc.
    apply bool_decide_ext. rewrite elem_of_cons. split; [by right|].
    by intros [->|?].
Qed.

(** The code [initMultilingualTabs] switches to: the stored one when it
    has a header, "en" otherwise. *)
Lemma init_page_selected els ls i0 rest g :
  select_lang_tab (Plain <$> els) = i0 :: rest ->
  categorize (Plain <$> els) (i0 :: rest) empty_groups = Some g ->
  exists ps,
    initMultilingualTabs (page els ls)
    = Returned (switchToTab
        (if bool_decide (getSelectedTab (page els ls) ∈ populated els)
         then getSelectedTab (page els ls) else "en")
        {| doc := before i0 (LangTabs (build_headers g) ps)
                    (Plain <$> hide (group g "mk") (hide (group g "en") els));
           localStorage := ls |})
    /\ p_lang <$> ps = populated els
    /\ h_lang <$> build_headers g = populated els
    /\ ps = (build_contents g (Plain <$> els)).2.
Proof.
  intros Hsel Hcat. destruct (build_contents_page g els) as (ps & Hbuild & Hlangs).
  pose proof Hcat as Hcat'. rewrite <- Hsel in Hcat'.
  rewrite (populated_groups els g Hcat') in Hlangs.
  assert (Hhl : h_lang <$> build_headers g = populated els).
  { by rewrite h_lang_build_headers, (populated_groups els g Hcat'). }
  exists ps. split; [|split; [done|split; [done|by rewrite Hbuild]]].
  unfold initMultilingualTabs. simpl. rewrite Hsel, Hcat, Hbuild. simpl.
  rewrite headers_before.
  change (getSelectedTab _) with (getSelectedTab (page els ls)).
  rewrite no_header_of, Hhl.
  by destruct (bool_decide (getSelectedTab (page els ls) ∈ populated els)).
Qed.

Lemma active_headers_on_headers f st :
  (forall h, h_class (f h) = h_class h /\ h_lang (f h) = h_lang h) ->
  active_headers (on_headers f st) = active_headers st.
Proof.
  intros Hf. unfold active_headers. rewrite headers_on_headers.
  induction (headers st) as [|h hs IH]; [done|]. csimpl. rewrite !filter_cons.
  assert (Ha : h_active (f h) = h_active h).
  { unfold h_active. by rewrite (proj1 (Hf h)). }
  destruct (decide (h_active h = true)) as [Hact|Hact].
  - rewrite decide_True by congruence. csimpl. by rewrite IH, (proj2 (Hf h)).
  - rewrite decide_False by congruence. apply IH.
Qed.

Lemma active_headers_hints st : active_headers (hints st) = active_headers st.
Proof.
  unfold hints. destruct (0 <? length (headers st)); [|done].
  rewrite !active_headers_on_headers; [done|..];
    intros h; by destruct (h_data_lang_is _ h).
Qed.

Lemma active_panels_hints st : active_panels (hints st) = active_panels st.
Proof. unfold active_panels. by rewrite panels_hints. Qed.

(** What a page looks like when the ready callback has set up the
    strip. *)
Lemma ready_page els ls st :
  ready (page els ls) = Returned st ->
  (select_lang_tab (Plain <$> els) = [] /\ st = page els ls)
  \/ exists st1,
       st = hints (switchToTab
                     (if bool_decide (getSelectedTab (page els ls) ∈ populated els)
                      then getSelectedTab (page els ls) else "en") st1)
       /\ h_lang <$> headers st1 = populated els
       /\ p_lang <$> panels st1 = populated els
       /\ elements_of (doc st1)
          = elements_of (doc (state_of (initMultilingualTabs (page els ls))))
       /\ localStorage st1 = ls.
Proof.
  unfold ready.
  destruct (select_lang_tab (Plain <$> els)) as [|i0 rest] eqn:Hsel.
  - unfold initMultilingualTabs; simpl. rewrite Hsel. intros [= <-]. left.
    split; [done|]. unfold hints. by rewrite headers_page.
  - destruct (categorize (Plain <$> els) (i0 :: rest) empty_groups) as [g|] eqn:Hcat.
    + destruct (init_page_selected els ls i0 rest g Hsel Hcat)
        as (ps & -> & Hpl & Hhl & _).
      intros [= <-]. right. eexists. split; [reflexivity|].
      rewrite headers_before, panels_before. cbn [state_of].
      by rewrite elements_of_switchToTab.
    + unfold initMultilingualTabs; simpl. by rewrite Hsel, Hcat.
Qed.

Lemma populated_none els :
  select_lang_tab (Plain <$> els) = [] -> populated els = [].
Proof.
  intros Hsel.
  assert (Hno : forall c, existsb (tagged c) els = false).
  { intros c. destruct (existsb (tagged c) els) eqn:Hex; [|done].
    apply existsb_exists in Hex as (e & [j He]%list_elem_of_In%list_elem_of_lookup_1 & Ht).
    unfold tagged in Ht. apply andb_prop in Ht as [Hm _].
    assert (Hj : j ∈ select_lang_tab (Plain <$> els)) by (apply elem_of_select_page; eauto).
    rewrite Hsel in Hj. by apply elem_of_nil in Hj. }
  unfold populated, languages. rewrite !filter_cons, filter_nil. simpl.
  by rewrite !Hno.
Qed.

Lemma filter_eq_length (c : string) (l : list string) :
  NoDup l -> length (filter (fun y => y = c) l) <= 1.
Proof.
  intros Hnd. rewrite (filter_eq_NoDup c l Hnd). case_bool_decide; simpl; lia.
Qed.

Lemma ready_active (els : list element) (ls : gmap string string) (st : state) :
  ready (page els ls) = Returned st ->
  active_headers st
  = (if bool_decide (getSelectedTab (page els ls) ∈ populated els)
     then [getSelectedTab (page els ls)]
     else if bool_decide ("en" ∈ populated els) then ["en"] else [])
  /\ active_panels st = active_headers st.
Proof.
  intros [[Hsel ->]|(st1 & -> & Hh & Hp & _)]%ready_page.
  - rewrite (populated_none els Hsel).
    unfold active_headers, active_panels. rewrite headers_page, panels_page.
    rewrite !bool_decide_eq_false_2 by apply not_elem_of_nil. done.
  - rewrite active_headers_hints, active_panels_hints.
    rewrite active_headers_switchToTab, active_panels_switchToTab, Hh, Hp.
    split; [|done]. rewrite (filter_eq_NoDup _ _ (populated_distinct els)).
    destruct (bool_decide (getSelectedTab (page els ls) ∈ populated els)) eqn:Hstored;
      [by rewrite Hstored|done].
Qed.

(** ** Header and panel stay in step *)

Lemma in_step_switch c st :
  h_lang <$> headers st = p_lang <$> panels st ->
  NoDup (h_lang <$> headers st) ->
  active_headers (switchToTab c st) = active_panels (switchToTab c st)
  /\ length (active_headers (switchToTab c st)) <= 1.
Proof.
  intros Hsame Hnd. rewrite active_headers_switchToTab, active_panels_switchToTab, Hsame.
  split; [done|]. rewrite <- Hsame. by apply filter_eq_length.
Qed.

Lemma reachable_strip (st : state) :
  reachable st ->
  h_lang <$> headers st = p_lang <$> panels st
  /\ (forall c, c ∈ h_lang <$> headers st -> c = "en" \/ c = "mk")
  /\ active_headers st = active_panels st
  /\ length (active_headers st) <= 1.
Proof.
  intros Hreach.
  assert (Hstep : forall c s,
    reachable s ->
    (h_lang <$> headers s = p_lang <$> panels s
     /\ (forall c, c ∈ h_lang <$> headers s -> c = "en" \/ c = "mk")
     /\ active_headers s = active_panels s
     /\ length (active_headers s) <= 1) ->
    h_lang <$> headers (switchToTab c s) = p_lang <$> panels (switchToTab c s)
    /\ (forall c', c' ∈ h_lang <$> headers (switchToTab c s) -> c' = "en" \/ c' = "mk")
    /\ active_headers (switchToTab c s) = active_panels (switchToTab c s)
    /\ length (active_headers (switchToTab c s)) <= 1).
  { intros c s Hs (Hsame & Hknown & _).
    destruct (langs_switchToTab c s) as [Hh Hp].
    destruct (reachable_distinct s Hs) as [Hnd _].
    destruct (in_step_switch c s Hsame Hnd) as [Hact Hone].
    rewrite Hh, Hp. done. }
  induction Hreach as [els ls st _ _ Hready|h st Hst IH _|e st Hst IH|st Hst IH].
  - apply ready_page in Hready as [[Hsel ->]|(st1 & -> & Hh & Hp & _)].
    + unfold active_headers, active_panels. rewrite headers_page, panels_page.
      split; [done|]. split; [by intros c ?%elem_of_nil|]. split; [done|simpl; lia].
    + rewrite h_lang_hints, panels_hints, active_headers_hints.
      unfold active_panels at 1. rewrite panels_hints. fold (active_panels
        (switchToTab (if bool_decide (getSelectedTab (page els ls) ∈ populated els)
                      then getSelectedTab (page els ls) else "en") st1)).
      destruct (langs_switchToTab
                  (if bool_decide (getSelectedTab (page els ls) ∈ populated els)
                   then getSelectedTab (page els ls) else "en") st1) as [Hh' Hp'].
      rewrite Hh', Hp', Hh, Hp. split; [done|].
      split; [apply populated_known|].
      apply in_step_switch; [by rewrite Hh, Hp|rewrite Hh; apply populated_distinct].
  - apply (Hstep (h_lang h) st Hst IH).
  - destruct (keydown_result e st) as [->|[c ->]]; [done|by apply Hstep].
  - unfold showTabWithErrors.
    destruct (scan_result (panels st) st) as [->|[c ->]]; [done|by apply Hstep].
Qed.

(** X3: on every page the script has set up, and after any clicks, key
    presses and error scans, the panels are of the same languages as the
    headers, in the same order, these are among "en" and "mk", the active
    panels are of the same languages as the active headers, and at most
    one header is active. *)
Theorem reachable_in_step (st : state) :
  reachable st ->
  h_lang <$> headers st = p_lang <$> panels st
  /\ (forall c, c ∈ h_lang <$> headers st -> c = "en" \/ c = "mk")
  /\ active_headers st = active_panels st
  /\ length (active_headers st) <= 1.
Proof. apply reachable_strip. Qed.

Lemma reachable_in_step_witness :
  let st := (keydown ctrl_2 (state_of (ready (page three_groups ∅)))).1 in
  reachable st /\ active_headers st = active_panels st /\ length (active_headers st) <= 1.
Proof.
  intros st.
  assert (Hreach : reachable st).
  { apply reach_keydown. apply (reach_ready three_groups ∅); vm_compute; reflexivity. }
  destruct (reachable_in_step st Hreach) as (_ & _ & H1 & H2).
  split; [exact Hreach|]. split; [exact H1|exact H2].
Defined.

(** ** Reloading the page *)

Lemma ready_returns_again els ls ls' st :
  ready (page els ls) = Returned st -> exists st', ready (page els ls') = Returned st'.
Proof.
  unfold ready.
  destruct (select_lang_tab (Plain <$> els)) as [|i0 rest] eqn:Hsel.
  - intros _. unfold initMultilingualTabs; simpl. rewrite Hsel. eauto.
  - destruct (categorize (Plain <$> els) (i0 :: rest) empty_groups) as [g|] eqn:Hcat.
    + intros _. destruct (init_page els ls' i0 rest g Hsel Hcat) as (ps & sel & -> & _). eauto.
    + unfold initMultilingualTabs; simpl. by rewrite Hsel, Hcat.
Qed.

(** A click, then the same page loaded again, in the model. *)
Lemma reload_after_click (els : list element) (ls : gmap string string)
    (st : state) (h : header) :
  ready (page els ls) = Returned st ->
  h ∈ headers st ->
  exists st',
    ready (page els (localStorage (click h st))) = Returned st'
    /\ active_headers st' = [h_lang h]
    /\ active_panels st' = [h_lang h]
    /\ getSelectedTab st' = h_lang h.
Proof.
  intros Hready Hh.
  assert (Hpop : h_lang h ∈ populated els).
  { pose proof Hready as [[_ ->]|(st1 & -> & Hh1 & _)]%ready_page.
    - rewrite headers_page in Hh. by apply elem_of_nil in Hh.
    - rewrite <- Hh1.
      destruct (langs_switchToTab
                  (if bool_decide (getSelectedTab (page els ls) ∈ populated els)
                   then getSelectedTab (page els ls) else "en") st1) as [<- _].
      rewrite <- h_lang_hints. by apply list_elem_of_fmap_2. }
  assert (Hstored : getSelectedTab (page els (localStorage (click h st))) = h_lang h).
  { unfold getSelectedTab, click, saveSelectedTab; simpl. rewrite lookup_insert_eq. simpl.
    by destruct (populated_known els _ Hpop) as [-> | ->]. }
  destruct (ready_returns_again els ls (localStorage (click h st)) st Hready) as [st' Hst'].
  exists st'. split; [done|].
  destruct (ready_active els _ st' Hst') as [Hact Hpan].
  rewrite Hstored, (bool_decide_eq_true_2 _ Hpop) in Hact.
  split; [done|]. split; [by rewrite Hpan|].
  pose proof Hst' as [[Hsel _]|(st1 & -> & _ & _ & _ & Hls)]%ready_page.
  - rewrite (populated_none els Hsel) in Hpop. by apply elem_of_nil in Hpop.
  - rewrite <- Hstored. unfold getSelectedTab.
    assert (Hl : forall s, localStorage (hints s) = localStorage s).
    { intros s. unfold hints. by destruct (0 <? length (headers s)). }
    rewrite Hl. simpl. by rewrite Hls.
Qed.

(** ** The shortcut hints *)

Lemma build_headers_languages g h :
  h ∈ build_headers g -> exists lang, lang ∈ languages /\ h = tabHeader lang.
Proof.
  unfold build_headers. intros Hin%list_elem_of_In%in_flat_map.
  destruct Hin as (lang & Hlang%list_elem_of_In & Hin).
  exists lang. split; [done|].
  destruct (0 <? length (group g (code lang))); [|done].
  by destruct Hin as [<-|[]].
Qed.

(** The headers after the ready callback, in the model. *)
Lemma titles_set (els : list element) (ls : gmap string string) (st : state)
    (h : header) :
  ready (page els ls) = Returned st ->
  h ∈ headers st ->
  (h_lang h = "en" /\ h_text h = "English" /\ h_title h = Some "English (Ctrl+1)")
  \/ (h_lang h = "mk" /\ h_text h = "Македонски"
      /\ h_title h = Some "Македонски (Ctrl+2)").
Proof.
  unfold ready.
  destruct (select_lang_tab (Plain <$> els)) as [|i0 rest] eqn:Hsel.
  { unfold initMultilingualTabs; simpl. rewrite Hsel. intros [= <-].
    unfold hints. rewrite headers_page. simpl. rewrite headers_page.
    by intros ?%elem_of_nil. }
  destruct (categorize (Plain <$> els) (i0 :: rest) empty_groups) as [g|] eqn:Hcat.
  2:{ unfold initMultilingualTabs; simpl. by rewrite Hsel, Hcat. }
  destruct (init_page els ls i0 rest g Hsel Hcat) as (ps & sel & -> & _).
  intros [= <-]. unfold hints.
  destruct (0 <? length (headers _)) eqn:Hlen.
  2:{ intros Hin. destruct (headers _); [by apply elem_of_nil in Hin|done]. }
  rewrite !headers_on_headers, headers_switchToTab, headers_before.
  rewrite <- !list_fmap_compose.
  intros (h0 & -> & (lang & Hlang & ->)%build_headers_languages)%list_elem_of_fmap.
  unfold languages in Hlang.
  repeat (apply elem_of_cons in Hlang as [->|Hlang]); [by left|by right|].
  by apply elem_of_nil in Hlang.
Qed.

(** ** When [initMultilingualTabs] throws *)

Lemma categorize_class_None i cn g :
  keys_ok g -> categorize_class i cn g = None <-> inherited_class cn = true.
Proof.
  intros Hk. unfold categorize_class, inherited_class.
  destruct (Str.startsWith cn "lang-") eqn:Hpre; simpl; [|done].
  destruct (String.eqb_spec cn "lang-tab") as [->|Hne]; simpl; [done|].
  unfold get. destruct (g !! Str.replace "lang-" "" cn) as [a|] eqn:Hg.
  - assert (Hkn : Str.replace "lang-" "" cn = "en" \/ Str.replace "lang-" "" cn = "mk")
      by (apply Hk; eauto).
    destruct Hkn as [-> | ->]; done.
  - case_bool_decide; done.
Qed.

Lemma categorize_class_keys i cn g g' :
  keys_ok g -> categorize_class i cn g = Some g' -> keys_ok g'.
Proof.
  intros Hk [->|(k & _ & Hkn & ->)]%categorize_class_Some; [done| |done].
  by apply keys_ok_insert.
Qed.

Lemma categorize_classes_None i cls g :
  keys_ok g ->
  categorize_classes i cls g = None <-> existsb inherited_class cls = true.
Proof.
  revert g. induction cls as [|cn cls IH]; intros g Hk; simpl; [done|].
  destruct (categorize_class i cn g) as [g1|] eqn:Hcn.
  - rewrite (IH g1) by (by eapply categorize_class_keys).
    destruct (inherited_class cn) eqn:Hin; [|done].
    apply (categorize_class_None i cn g Hk) in Hin. congruence.
  - apply (categorize_class_None i cn g Hk) in Hcn. by rewrite Hcn.
Qed.

Lemma categorize_None d idxs g :
  keys_ok g ->
  categorize d idxs g = None <->
  exists i, i ∈ idxs /\ existsb inherited_class (Str.split Str.is_space (class_attr d i)) = true.
Proof.
  revert g. induction idxs as [|i idxs IH]; intros g Hk; simpl.
  - split; [done|]. by intros (i & ?%elem_of_nil & _).
  - destruct (categorize_classes i _ g) as [g1|] eqn:Hi.
    + rewrite (IH g1) by (by destruct (categorize_classes_Some _ _ _ _ Hk Hi)).
      split.
      * intros (j & Hj & Hex). exists j. split; [by right|done].
      * intros (j & [->|Hj]%elem_of_cons & Hex); [|by eauto].
        apply (categorize_classes_None i _ g Hk) in Hex. congruence.
    + split; [|done]. intros _. exists i. split; [by left|].
      by apply (categorize_classes_None i _ g Hk).
Qed.

Lemma inherits_page els :
  existsb inherits els = true <->
  exists i, i ∈ select_lang_tab (Plain <$> els)
            /\ existsb inherited_class
                 (Str.split Str.is_space (class_attr (Plain <$> els) i)) = true.
Proof.
  rewrite existsb_exists. unfold inherits. split.
  - intros (e & [i He]%list_elem_of_In%list_elem_of_lookup_1 & [Hm Hex]%andb_prop).
    exists i. split; [apply elem_of_select_page; eauto|].
    by rewrite (class_attr_page els i e He).
  - intros (i & (e & He & Hm)%elem_of_select_page & Hex).
    exists e. split; [apply list_elem_of_In; by eapply list_elem_of_lookup_2|].
    rewrite (class_attr_page els i e He) in Hex. by rewrite Hm, Hex.
Qed.

Lemma localStorage_hints st : localStorage (hints st) = localStorage st.
Proof. unfold hints. by destruct (0 <? length (headers st)). Qed.

(** How the ready callback ends, in the model. *)
Lemma ready_outcome (els : list element) (ls : gmap string string) :
  match ready (page els ls) with
  | Threw st => existsb inherits els = true /\ st = page els ls
  | Returned st => existsb inherits els = false /\ localStorage st = ls
  end.
Proof.
  unfold ready.
  destruct (select_lang_tab (Plain <$> els)) as [|i0 rest] eqn:Hsel.
  - assert (Hinit : initMultilingualTabs (page els ls) = Returned (page els ls)).
    { unfold initMultilingualTabs; simpl. by rewrite Hsel. }
    rewrite Hinit. split; [|by rewrite localStorage_hints].
    apply not_true_is_false. intros (i & Hi & _)%inherits_page.
    rewrite Hsel in Hi. by apply elem_of_nil in Hi.
  - destruct (categorize (Plain <$> els) (i0 :: rest) empty_groups) as [g|] eqn:Hcat.
    + destruct (init_page els ls i0 rest g Hsel Hcat) as (ps & sel & -> & _).
      split; [|by rewrite localStorage_hints].
      apply not_true_is_false. intros Hex%inherits_page. rewrite Hsel in Hex.
      apply (categorize_None _ _ _ empty_groups_keys) in Hex. congruence.
    + assert (Hinit : initMultilingualTabs (page els ls) = Threw (page els ls)).
      { unfold initMultilingualTabs; simpl. by rewrite Hsel, Hcat. }
      rewrite Hinit. split; [|done]. apply inherits_page. rewrite Hsel.
      by apply (categorize_None _ _ _ empty_groups_keys).
Qed.

(** ** Where the strip goes and what is hidden *)

Lemma hide_lookup_out idxs els j : j ∉ idxs -> hide idxs els !! j = els !! j.
Proof.
  intros Hout. destruct (hide idxs els !! j) as [e'|] eqn:He'.
  - destruct (hide_lookup _ _ _ _ He') as (e & -> & _ & Hsame & _). by rewrite Hsame.
  - apply lookup_ge_None in He'. rewrite length_hide in He'.
    symmetry. by apply lookup_ge_None.
Qed.

Lemma first_marked els i0 e0 :
  els !! i0 = Some e0 -> marked e0 = true ->
  (forall j e, j < i0 -> els !! j = Some e -> marked e = false) ->
  exists rest, select_lang_tab (Plain <$> els) = i0 :: rest.
Proof.
  intros He0 Hm0 Hbefore.
  assert (Hi0 : i0 ∈ select_lang_tab (Plain <$> els)) by (apply elem_of_select_page; eauto).
  destruct (select_lang_tab (Plain <$> els)) as [|i1 rest] eqn:Hsel;
    [by apply elem_of_nil in Hi0|].
  assert (Hle : i1 <= i0).
  { unfold select_lang_tab in Hsel. eapply select_first; [exact Hsel|by rewrite Hsel]. }
  assert (Hi1 : i1 ∈ select_lang_tab (Plain <$> els)) by (rewrite Hsel; by left).
  apply elem_of_select_page in Hi1 as (e1 & He1 & Hm1).
  destruct (decide (i1 = i0)) as [->|Hne]; [by exists rest|].
  rewrite (Hbefore i1 e1) in Hm1; [done|lia|done].
Qed.

Lemma switch_item_plain c (els : list element) :
  switch_item c <$> (Plain <$> els) = Plain <$> els.
Proof. rewrite <- list_fmap_compose. by apply list_fmap_ext. Qed.

(** Where the strip stands, in the model. *)
Lemma strip_position (els : list element) (ls : gmap string string)
    (st : state) (i0 : nat) (e0 : element) :
  initMultilingualTabs (page els ls) = Returned st ->
  els !! i0 = Some e0 -> marked e0 = true ->
  (forall j e, j < i0 -> els !! j = Some e -> marked e = false) ->
  doc st = (Plain <$> take i0 els)
           ++ LangTabs (headers st) (panels st)
           :: (Plain <$> drop i0 (elements_of (doc st)))
  /\ length (elements_of (doc st)) = length els
  /\ el_class <$> elements_of (doc st) = el_class <$> els.
Proof.
  intros Hinit He0 Hm0 Hbefore.
  destruct (first_marked els i0 e0 He0 Hm0 Hbefore) as [rest Hsel].
  destruct (categorize (Plain <$> els) (i0 :: rest) empty_groups) as [g|] eqn:Hcat.
  2:{ unfold initMultilingualTabs in Hinit; simpl in Hinit.
      by rewrite Hsel, Hcat in Hinit. }
  destruct (init_page els ls i0 rest g Hsel Hcat) as (ps & sel & Hinit' & _).
  rewrite Hinit' in Hinit. injection Hinit as <-.
  rewrite headers_switchToTab, panels_switchToTab, headers_before, panels_before.
  rewrite doc_switchToTab, elements_of_switch. simpl.
  rewrite elements_of_before, elements_of_plain.
  set (els' := hide (group g "mk") (hide (group g "en") els)).
  assert (Hout : forall k j, j < i0 -> j ∉ group g k).
  { intros k j Hj Hin. rewrite <- Hsel in Hcat.
    apply (elem_of_group els g k j Hcat) in Hin as (_ & e & He & Ht).
    unfold tagged in Ht. rewrite (Hbefore j e Hj He) in Ht. done. }
  assert (Htake : take i0 els' = take i0 els).
  { apply list_eq. intros j. rewrite !lookup_take.
    destruct (decide (j < i0)) as [Hj|Hj]; [|done].
    unfold els'. rewrite !hide_lookup_out by (by apply Hout). done. }
  split; [|split].
  - unfold before. rewrite fmap_app, fmap_cons. simpl.
    rewrite <- fmap_take, <- fmap_drop, !switch_item_plain. by rewrite Htake.
  - unfold els'. by rewrite !length_hide.
  - apply list_eq. intros j. rewrite !list_lookup_fmap.
    destruct (els' !! j) as [e'|] eqn:He'.
    + unfold els' in He'.
      destruct (hide_lookup _ _ _ _ He') as (e1 & He1 & Hc1 & _).
      destruct (hide_lookup _ _ _ _ He1) as (e & -> & Hc & _). simpl. congruence.
    + apply lookup_ge_None in He'. unfold els' in He'. rewrite !length_hide in He'.
      by rewrite (lookup_ge_None_2 els j).
Qed.

(** Which elements are hidden, in the model. *)
Lemma hidden_exactly (els : list element) (ls : gmap string string)
    (st : state) (i : nat) (e : element) :
  initMultilingualTabs (page els ls) = Returned st ->
  els !! i = Some e ->
  exists e',
    elements_of (doc st) !! i = Some e'
    /\ el_class e' = el_class e
    /\ (tagged "en" e || tagged "mk" e = true -> el_hidden e' = true)
    /\ (tagged "en" e || tagged "mk" e = false -> e' = e).
Proof.
  intros Hinit He.
  destruct (select_lang_tab (Plain <$> els)) as [|i0 rest] eqn:Hsel.
  { unfold initMultilingualTabs in Hinit; simpl in Hinit. rewrite Hsel in Hinit.
    injection Hinit as <-. simpl. rewrite elements_of_plain. exists e.
    split; [done|]. split; [done|]. split; [|done].
    assert (Hm : marked e = false).
    { destruct (marked e) eqn:Hm; [|done].
      assert (Hi : i ∈ select_lang_tab (Plain <$> els)) by (apply elem_of_select_page; eauto).
      rewrite Hsel in Hi. by apply elem_of_nil in Hi. }
    unfold tagged. by rewrite Hm. }
  destruct (categorize (Plain <$> els) (i0 :: rest) empty_groups) as [g|] eqn:Hcat.
  2:{ unfold initMultilingualTabs in Hinit; simpl in Hinit.
      by rewrite Hsel, Hcat in Hinit. }
  destruct (init_page els ls i0 rest g Hsel Hcat) as (ps & sel & Hinit' & _).
  rewrite Hinit' in Hinit. injection Hinit as <-.
  rewrite doc_switchToTab, elements_of_switch. simpl.
  rewrite elements_of_before, elements_of_plain. rewrite <- Hsel in Hcat.
  destruct (hide (group g "mk") (hide (group g "en") els) !! i) as [e2|] eqn:He2.
  2:{ apply lookup_ge_None in He2. rewrite !length_hide in He2.
      apply lookup_lt_Some in He. lia. }
  exists e2. split; [done|].
  destruct (hide_lookup _ _ _ _ He2) as (e1 & He1 & Hcls2 & Hsame2 & Hhid2).
  destruct (hide_lookup _ _ _ _ He1) as (e0 & He0 & Hcls1 & Hsame1 & Hhid1).
  rewrite He in He0. injection He0 as <-.
  assert (Hgroup : forall k, k = "en" \/ k = "mk" -> i ∈ group g k <-> tagged k e = true).
  { intros k Hk. rewrite (elem_of_group els g k i Hcat). split.
    - intros (_ & e' & He' & Ht). congruence.
    - intros Ht. split; [done|]. eauto. }
  split; [congruence|]. split.
  - intros [Hen|Hmk]%orb_prop.
    + apply Hhid2. right. apply Hhid1. left. apply Hgroup; auto.
    + apply Hhid2. left. apply Hgroup; auto.
  - intros [Hen Hmk]%orb_false_elim.
    rewrite Hsame2, Hsame1; [done| |].
    + intros Hin%Hgroup; [congruence|auto].
    + intros Hin%Hgroup; [congruence|auto].
Qed.

(** ** The groups, exactly *)

Lemma lang_class_inj k k' : "lang-" +:+ k = "lang-" +:+ k' -> k = k'.
Proof. intros H. by rewrite <- (replace_prefix "lang-" k), H, replace_prefix. Qed.

Lemma categorize_class_group i cn g g' k :
  keys_ok g -> categorize_class i cn g = Some g' -> k = "en" \/ k = "mk" ->
  group g' k = group g k ++ if decide (cn = "lang-" +:+ k) then [i] else [].
Proof.
  intros Hk Hcn Hkn. destruct (decide (cn = "lang-" +:+ k)) as [->|Hne].
  - rewrite (categorize_class_known i k g Hk Hkn) in Hcn. injection Hcn as <-.
    by rewrite group_insert, decide_True.
  - rewrite app_nil_r.
    destruct (categorize_class_Some _ _ _ _ Hk Hcn) as [->|(k0 & -> & Hkn0 & ->)]; [done|].
    rewrite group_insert, decide_False; [done|]. by intros ->.
Qed.

Lemma categorize_classes_group i cls g g' k :
  keys_ok g -> categorize_classes i cls g = Some g' -> k = "en" \/ k = "mk" ->
  group g' k
  = group g k ++ replicate (length (filter (fun cn => cn = "lang-" +:+ k) cls)) i.
Proof.
  revert g. induction cls as [|cn cls IH]; intros g Hk; simpl.
  - intros [= <-] _. by rewrite app_nil_r.
  - destruct (categorize_class i cn g) as [g1|] eqn:Hcn; [|done]. intros Hrest Hkn.
    rewrite (IH g1 (categorize_class_keys _ _ _ _ Hk Hcn) Hrest Hkn).
    rewrite (categorize_class_group i cn g g1 k Hk Hcn Hkn), filter_cons.
    destruct (decide (cn = "lang-" +:+ k)); simpl.
    + by rewrite <- app_assoc.
    + by rewrite app_nil_r.
Qed.

Lemma categorize_group d idxs g g' k :
  keys_ok g -> categorize d idxs g = Some g' -> k = "en" \/ k = "mk" ->
  group g' k
  = group g k ++ flat_map (fun i => replicate (occurrences k (class_attr d i)) i) idxs.
Proof.
  revert g. induction idxs as [|i idxs IH]; intros g Hk; simpl.
  - intros [= <-] _. by rewrite app_nil_r.
  - destruct (categorize_classes i _ g) as [g1|] eqn:Hi; [|done]. intros Hrest Hkn.
    rewrite (IH g1) by (done || by destruct (categorize_classes_Some _ _ _ _ Hk Hi)).
    rewrite (categorize_classes_group i _ g g1 k Hk Hi Hkn).
    by rewrite <- app_assoc.
Qed.

(** The two groups, in the model. *)
Lemma groups_listing (els : list element) (g : gmap string (list nat)) (k : string) :
  categorize (Plain <$> els) (select_lang_tab (Plain <$> els)) empty_groups = Some g ->
  k = "en" \/ k = "mk" ->
  group g k
  = flat_map (fun i => replicate (occurrences k (class_attr (Plain <$> els) i)) i)
             (select_lang_tab (Plain <$> els)).
Proof.
  intros Hcat Hkn.
  rewrite (categorize_group _ _ _ _ k empty_groups_keys Hcat Hkn).
  by rewrite group_empty_groups.
Qed.

(** ** What the panels hold *)

Lemma flat_map_ext_elem {A B} (f h : A -> list B) (l : list A) :
  (forall x, x ∈ l -> f x = h x) -> flat_map f l = flat_map h l.
Proof.
  induction l as [|x l IH]; [done|]. intros Hext. simpl.
  rewrite (Hext x) by (by left). rewrite IH; [done|].
  intros y Hy. apply Hext. by right.
Qed.

Lemma move_fieldset_page els acc i :
  move_fieldset (Plain <$> els, acc) i
  = (Plain <$> alter emptied i els, acc ++ content_at els i).
Proof.
  pose proof (move_fieldset_plain els acc i) as H1.
  destruct (move_fieldset (Plain <$> els, acc) i) as [d acc'] eqn:Hmv. simpl in H1.
  subst d. f_equal. unfold move_fieldset in Hmv. simpl in Hmv.
  unfold content_at. rewrite list_lookup_fmap in Hmv.
  destruct (els !! i) as [e|]; simpl in *.
  - by injection Hmv as _ <-.
  - injection Hmv as _ <-. by rewrite app_nil_r.
Qed.

Lemma content_at_alter els i j : i <> j -> content_at (alter emptied i els) j = content_at els j.
Proof. intros Hne. unfold content_at. by rewrite list_lookup_alter_ne. Qed.

Lemma move_fieldsets_page idxs els acc :
  NoDup idxs ->
  foldl move_fieldset (Plain <$> els, acc) idxs
  = (Plain <$> hide idxs els, acc ++ flat_map (content_at els) idxs).
Proof.
  intros Hnd. revert els acc.
  induction Hnd as [|i idxs Hi Hnd IH]; intros els acc; simpl.
  - by rewrite app_nil_r.
  - rewrite move_fieldset_page, IH, <- app_assoc. f_equal. f_equal. f_equal.
    apply flat_map_ext_elem. intros j Hj. apply content_at_alter.
    by intros ->.
Qed.

Lemma content_at_hide idxs els j : j ∉ idxs -> content_at (hide idxs els) j = content_at els j.
Proof. intros Hout. unfold content_at. by rewrite hide_lookup_out. Qed.

Lemma build_contents_exact g els :
  NoDup (group g "en") -> NoDup (group g "mk") ->
  (forall j, j ∈ group g "en" -> j ∉ group g "mk") ->
  (build_contents g (Plain <$> els)).2
  = flat_map (fun lang => if 0 <? length (group g (code lang))
                          then [tabContent lang (flat_map (content_at els) (group g (code lang)))]
                          else [])
             languages.
Proof.
  intros Hen Hmk Hdisj.
  set (en := {| code := "en"; name := "English"; class := "lang-en" |}).
  set (mk := {| code := "mk"; name := "Македонски"; class := "lang-mk" |}).
  change (build_contents g (Plain <$> els))
    with (build_content g (build_content g (Plain <$> els, []) en) mk).
  assert (Hstep : forall lang l ps,
            NoDup (group g (code lang)) ->
            build_content g (Plain <$> l, ps) lang
            = (Plain <$> hide (group g (code lang)) l,
               ps ++ if 0 <? length (group g (code lang))
                     then [tabContent lang (flat_map (content_at l) (group g (code lang)))]
                     else [])).
  { intros lang l ps Hnd. unfold build_content; simpl.
    destruct (0 <? length (group g (code lang))) eqn:Hne.
    - by rewrite move_fieldsets_page.
    - rewrite app_nil_r. destruct (group g (code lang)); [done|discriminate Hne]. }
  rewrite (Hstep en els [] Hen), (Hstep mk _ _ Hmk). unfold languages. fold en mk.
  simpl. rewrite app_nil_r. f_equal.
  destruct (0 <? length (group g "mk")); [|done]. f_equal. f_equal.
  apply flat_map_ext_elem. intros j Hj. apply content_at_hide.
  intros Hin. by apply (Hdisj j).
Qed.

Lemma select_from_NoDup d i : NoDup (select_from i d).
Proof.
  revert i. induction d as [|x d IH]; intros i; simpl; [apply NoDup_nil_2|].
  destruct (is_lang_tab x); simpl; [|apply IH].
  apply NoDup_cons. split; [|apply IH]. intros Hin%select_from_ge. lia.
Qed.

Lemma elem_of_replicated (n : nat -> nat) (l : list nat) j :
  j ∈ flat_map (fun i => replicate (n i) i) l <-> j ∈ l /\ 0 < n j.
Proof.
  rewrite list_elem_of_In, in_flat_map. split.
  - intros (i & Hi%list_elem_of_In & Hj%list_elem_of_In).
    apply elem_of_replicate in Hj as [-> Hn]. split; [done|lia].
  - intros [Hj Hn]. exists j. split; [by apply list_elem_of_In|].
    apply list_elem_of_In, elem_of_replicate. split; [done|lia].
Qed.

Lemma replicated_NoDup (n : nat -> nat) (l : list nat) :
  NoDup l -> (forall i, i ∈ l -> n i <= 1) ->
  NoDup (flat_map (fun i => replicate (n i) i) l).
Proof.
  induction 1 as [|i l Hi Hnd IH]; intros Hn; simpl; [apply NoDup_nil_2|].
  apply NoDup_app. split; [|split].
  - assert (Hle : n i <= 1) by (apply Hn; by left).
    destruct (n i) as [|[|m]]; simpl; [apply NoDup_nil_2|apply NoDup_singleton|lia].
  - intros j [-> _]%elem_of_replicate [Hin _]%elem_of_replicated. done.
  - apply IH. intros j Hj. apply Hn. by right.
Qed.

Lemma flat_map_filter {A B} (P : A -> bool) (F : A -> list B) (l : list A) :
  flat_map (fun x => if P x then F x else []) l
  = flat_map F (filter (fun x => P x = true) l).
Proof.
  induction l as [|x l IH]; [done|]. simpl. rewrite filter_cons, IH.
  destruct (P x); simpl; done.
Qed.

Lemma flat_map_nested {A B C} (f : B -> list C) (h : A -> list B) (l : list A) :
  flat_map f (flat_map h l) = flat_map (fun x => flat_map f (h x)) l.
Proof.
  induction l as [|x l IH]; [done|]. simpl. by rewrite flat_map_app, IH.
Qed.

(** A sum over the marked fieldsets, by position and by element. *)
Lemma select_flat_map {A} (F : element -> list A) (pre els : list element) :
  flat_map (fun j => from_option F [] ((pre ++ els) !! j))
           (select_from (length pre) (Plain <$> els))
  = flat_map (fun e => if marked e then F e else []) els.
Proof.
  revert pre. induction els as [|e els IH]; intros pre; [done|]. csimpl.
  rewrite flat_map_app. f_equal.
  - unfold marked. destruct (Str.hasClass "lang-tab" (el_class e)); simpl; [|done].
    rewrite lookup_app_r, Nat.sub_diag by lia. simpl. by rewrite app_nil_r.
  - specialize (IH (pre ++ [e])). rewrite length_app, <- app_assoc in IH. simpl in IH.
    rewrite Nat.add_1_r in IH. exact IH.
Qed.

Lemma occurrences_tagged k e :
  marked e = true -> (0 <? occurrences k (el_class e)) = tagged k e.
Proof.
  intros Hm. unfold tagged, occurrences. rewrite Hm. simpl.
  apply eq_true_iff_eq. rewrite Nat.ltb_lt, bool_decide_eq_true.
  induction (Str.split Str.is_space (el_class e)) as [|cn l IH]; simpl.
  - split; [lia|by intros ?%elem_of_nil].
  - rewrite filter_cons, elem_of_cons. destruct (decide (cn = "lang-" +:+ k)) as [->|Hne].
    + simpl. split; [by left|lia].
    + rewrite IH. split; [by right|]. intros [Heq|?]; [by destruct Hne|done].
Qed.

Lemma group_content els k :
  (forall e, e ∈ els -> marked e = true -> occurrences k (el_class e) <= 1) ->
  flat_map (content_at els)
    (flat_map (fun i => replicate (occurrences k (class_attr (Plain <$> els) i)) i)
              (select_lang_tab (Plain <$> els)))
  = flat_map (fun e => content (el_kids e)) (filter (fun e => tagged k e = true) els).
Proof.
  intros Hone. rewrite flat_map_nested.
  rewrite (flat_map_ext_elem _
             (fun j => from_option
                         (fun e => if tagged k e then content (el_kids e) else [])
                         [] (els !! j))).
  - pose proof (select_flat_map
                  (fun e => if tagged k e then content (el_kids e) else []) [] els) as Hsum.
    simpl in Hsum. unfold select_lang_tab. rewrite Hsum.
    rewrite <- flat_map_filter. apply flat_map_ext_elem. intros e _.
    unfold tagged. by destruct (marked e).
  - intros i (e & He & Hm)%elem_of_select_page. simpl.
    rewrite (class_attr_page els i e He), He. simpl.
    rewrite <- (occurrences_tagged k e Hm).
    assert (Hle : occurrences k (el_class e) <= 1)
      by (apply Hone; [by eapply list_elem_of_lookup_2|done]).
    destruct (occurrences k (el_class e)) as [|[|n]]; simpl; [done| |lia].
    unfold content_at. rewrite He. simpl. by rewrite app_nil_r.
Qed.

Lemma panels_hold (els : list element) (ls : gmap string string) (st : state) :
  initMultilingualTabs (page els ls) = Returned st ->
  (forall e, e ∈ els -> marked e = true ->
     occurrences "en" (el_class e) + occurrences "mk" (el_class e) <= 1) ->
  forall p, p ∈ panels st ->
    p_kids p
    = flat_map (fun e => content (el_kids e))
               (filter (fun e => tagged (p_lang p) e = true) els).
Proof.
  intros Hinit Hone p Hp.
  destruct (select_lang_tab (Plain <$> els)) as [|i0 rest] eqn:Hsel.
  { unfold initMultilingualTabs in Hinit; simpl in Hinit. rewrite Hsel in Hinit.
    injection Hinit as <-. rewrite panels_page in Hp. by apply elem_of_nil in Hp. }
  destruct (categorize (Plain <$> els) (i0 :: rest) empty_groups) as [g|] eqn:Hcat.
  2:{ unfold initMultilingualTabs in Hinit; simpl in Hinit.
      by rewrite Hsel, Hcat in Hinit. }
  destruct (init_page_selected els ls i0 rest g Hsel Hcat) as (ps & Hinit' & _ & _ & Hps).
  rewrite Hinit' in Hinit. injection Hinit as <-.
  rewrite panels_switchToTab, panels_before in Hp.
  apply list_elem_of_fmap in Hp as (p0 & -> & Hp0). simpl.
  rewrite <- Hsel in Hcat.
  pose proof (Hgen := categorize_group _ _ _ _ "en" empty_groups_keys Hcat
                                   (or_introl eq_refl)).
  pose proof (Hgmk := categorize_group _ _ _ _ "mk" empty_groups_keys Hcat
                                   (or_intror eq_refl)).
  rewrite group_empty_groups in Hgen, Hgmk.
  simpl in Hgen, Hgmk.
  assert (Hocc : forall i, i ∈ select_lang_tab (Plain <$> els) ->
            occurrences "en" (class_attr (Plain <$> els) i)
            + occurrences "mk" (class_attr (Plain <$> els) i) <= 1).
  { intros i (e & He & Hm)%elem_of_select_page. rewrite (class_attr_page els i e He).
    apply Hone; [by eapply list_elem_of_lookup_2|done]. }
  assert (Hen : NoDup (group g "en")).
  { rewrite Hgen. apply replicated_NoDup; [apply select_from_NoDup|].
    intros i Hi. specialize (Hocc i Hi). lia. }
  assert (Hmk : NoDup (group g "mk")).
  { rewrite Hgmk. apply replicated_NoDup; [apply select_from_NoDup|].
    intros i Hi. specialize (Hocc i Hi). lia. }
  assert (Hdisj : forall j, j ∈ group g "en" -> j ∉ group g "mk").
  { intros j. rewrite Hgen, Hgmk.
    intros [Hj H1]%elem_of_replicated [_ H2]%elem_of_replicated.
    specialize (Hocc j Hj). lia. }
  rewrite (build_contents_exact g els Hen Hmk Hdisj) in Hps. subst ps.
  unfold languages in Hp0. simpl in Hp0.
  apply elem_of_app in Hp0 as [Hp0|Hp0].
  - destruct (0 <? length (group g "en")); [|by apply elem_of_nil in Hp0].
    apply list_elem_of_singleton in Hp0 as ->. simpl.
    rewrite Hgen. apply group_content.
    intros e He Hm. specialize (Hone e He Hm). lia.
  - rewrite app_nil_r in Hp0.
    destruct (0 <? length (group g "mk")); [|by apply elem_of_nil in Hp0].
    apply list_elem_of_singleton in Hp0 as ->. simpl.
    rewrite Hgmk. apply group_content.
    intros e He Hm. specialize (Hone e He Hm). lia.
Qed.

(** ** Moving the content of one fieldset *)

Lemma node_tree_ind (P : node -> Prop) :
  (forall t, P (Text t)) ->
  (forall cls ks, Forall P ks -> P (Elem cls ks)) ->
  forall n, P n.
Proof.
  intros Htext Helem. fix IH 1. intros [t|cls ks]; [apply Htext|].
  apply Helem. induction ks as [|k ks IHks]; constructor; [apply IH|exact IHks].
Qed.

Lemma weight_app l k : weight (l ++ k) = weight l + weight k.
Proof. unfold weight. by rewrite map_app, list_sum_app. Qed.

Lemma weight_flat_map (f : node -> list node) (ks : list node) :
  weight (flat_map f ks) = list_sum (map (fun n => weight (f n)) ks).
Proof.
  induction ks as [|k ks IH]; [done|]. simpl. by rewrite weight_app, IH.
Qed.

Lemma weight_cons n l : weight (n :: l) = nodes n + weight l.
Proof. reflexivity. Qed.

Lemma nodes_Elem cls ks : nodes (Elem cls ks) = S (weight ks).
Proof. reflexivity. Qed.

Lemma detached_Elem c cls ks :
  JQ.detached c (Elem cls ks)
  = (if Str.hasClass c cls then [Elem cls (flat_map (JQ.without c) ks)] else [])
      ++ flat_map (JQ.detached c) ks.
Proof. reflexivity. Qed.

Lemma without_Elem c cls ks :
  JQ.without c (Elem cls ks)
  = if Str.hasClass c cls then [] else [Elem cls (flat_map (JQ.without c) ks)].
Proof. reflexivity. Qed.

Lemma matching_Elem c cls ks :
  JQ.matching c (Elem cls ks)
  = (if Str.hasClass c cls then [Elem cls ks] else []) ++ flat_map (JQ.matching c) ks.
Proof. reflexivity. Qed.

Lemma weight_split c (n : node) :
  weight (JQ.detached c n) + weight (JQ.without c n) = nodes n.
Proof.
  induction n as [t|cls ks IH] using node_tree_ind; [done|].
  assert (Hks : weight (flat_map (JQ.detached c) ks) + weight (flat_map (JQ.without c) ks)
                = weight ks).
  { rewrite !weight_flat_map. unfold weight at 3.
    induction IH as [|k ks Hk _ IHks]; [done|]. simpl. lia. }
  rewrite detached_Elem, without_Elem, nodes_Elem, weight_app.
  destruct (Str.hasClass c cls).
  - rewrite weight_cons, nodes_Elem. change (weight []) with 0. lia.
  - rewrite weight_cons, nodes_Elem. change (weight []) with 0. lia.
Qed.

Lemma weight_split_list c (ks : list node) :
  weight (flat_map (JQ.detached c) ks) + weight (flat_map (JQ.without c) ks) = weight ks.
Proof.
  rewrite !weight_flat_map. unfold weight at 3.
  induction ks as [|k ks IH]; [done|]. simpl. pose proof (weight_split c k). lia.
Qed.

Lemma flat_map_nil {A B} (f : A -> list B) (l : list A) :
  Forall (fun x => f x = []) l -> flat_map f l = [].
Proof. induction 1 as [|x l Hx _ IH]; [done|]. simpl. by rewrite Hx, IH. Qed.

Lemma without_none c (n : node) : JQ.find c (JQ.without c n) = [].
Proof.
  induction n as [t|cls ks IH] using node_tree_ind; [done|].
  rewrite without_Elem. destruct (Str.hasClass c cls) eqn:Hc; [done|].
  unfold JQ.find. cbn [flat_map]. rewrite app_nil_r, matching_Elem, Hc. cbn [app].
  rewrite flat_map_nested. by apply flat_map_nil.
Qed.

Lemma without_none_list c (ks : list node) :
  JQ.find c (flat_map (JQ.without c) ks) = [].
Proof.
  unfold JQ.find. rewrite flat_map_nested. apply flat_map_nil, Forall_forall.
  intros n _. apply without_none.
Qed.

Lemma detached_module_free (n : node) : Forall module_free (JQ.detached "module" n).
Proof.
  induction n as [t|cls ks IH] using node_tree_ind; [constructor|].
  rewrite detached_Elem. apply Forall_app. split.
  - destruct (Str.hasClass "module" cls); constructor; [|constructor].
    apply without_none_list.
  - induction IH as [|k ks Hk _ IHks]; [constructor|]. cbn [flat_map].
    apply Forall_app. by split.
Qed.

Lemma detached_module_free_list (ks : list node) :
  Forall module_free (flat_map (JQ.detached "module") ks).
Proof.
  induction ks as [|k ks IH]; [constructor|]. cbn [flat_map].
  apply Forall_app. split; [apply detached_module_free|exact IH].
Qed.

Lemma length_detached c (n : node) : length (JQ.detached c n) = length (JQ.matching c n).
Proof.
  induction n as [t|cls ks IH] using node_tree_ind; [done|].
  rewrite detached_Elem, matching_Elem, !length_app.
  f_equal; [by destruct (Str.hasClass c cls)|].
  induction IH as [|k ks Hk _ IHks]; [done|]. cbn [flat_map]. rewrite !length_app. lia.
Qed.

Lemma weight_partition (ks : list node) :
  weight (JQ.children ks) + weight (filter (fun n => negb (JQ.is_elem n)) ks) = weight ks.
Proof.
  unfold JQ.children, weight. induction ks as [|k ks IH]; [done|].
  rewrite !filter_cons. destruct k as [t|cls k']; simpl in *; lia.
Qed.

(** X11: emptying a fieldset neither loses nor copies a node: what goes
    to the panel and what stays under the hidden fieldset together count
    the nodes it had; no [.module] element stays behind; and every node
    that goes to the panel is an element with no [.module] element inside
    it, as many of them as there were [.module] elements when there were
    any. *)
Theorem move_conserves (e : element) :
  weight (content (el_kids e)) + weight (el_kids (emptied e)) = weight (el_kids e)
  /\ JQ.find "module" (el_kids (emptied e)) = []
  /\ Forall module_free (content (el_kids e))
  /\ (JQ.find "module" (el_kids e) <> [] ->
      length (content (el_kids e)) = length (JQ.find "module" (el_kids e))).
Proof.
  unfold content, emptied; simpl.
  destruct (JQ.find "module" (el_kids e)) as [|m ms] eqn:Hfind; simpl.
  - split; [apply weight_partition|]. split; [|split; [|done]].
    + unfold JQ.find. apply flat_map_nil, Forall_forall.
      intros n [Hn _]%list_elem_of_filter. by destruct n.
    + apply Forall_forall. intros n [Hn Hin]%list_elem_of_filter.
      destruct n as [t|cls k]; [done|]. simpl.
      unfold JQ.find in Hfind.
      assert (Hm : JQ.matching "module" (Elem cls k) = []).
      { destruct (JQ.matching "module" (Elem cls k)) as [|x xs] eqn:Hx; [done|].
        assert (Hin' : x ∈ flat_map (JQ.matching "module") (el_kids e)).
        { apply list_elem_of_In, in_flat_map. exists (Elem cls k).
          split; [by apply list_elem_of_In|]. rewrite Hx. by left. }
        rewrite Hfind in Hin'. by apply elem_of_nil in Hin'. }
      rewrite matching_Elem in Hm. by apply app_eq_nil in Hm as [_ Hm].
  - split; [apply weight_split_list|]. split; [apply without_none_list|]. split.
    + apply detached_module_free_list.
    + intros _. change (S (length ms)) with (length (m :: ms)).
      rewrite <- Hfind. unfold JQ.find. clear Hfind.
      induction (el_kids e) as [|k ks IH]; [done|]. simpl.
      by rewrite !length_app, length_detached, IH.
Qed.

Lemma move_conserves_witness :
  let e := fieldset "lang-tab lang-en"
             [Elem "wrap" [Elem "module" [Text "a"; Elem "x module" [Text "b"]]]; Text "t"] in
  JQ.find "module" (el_kids e) <> []
  /\ length (content (el_kids e)) = 2
  /\ weight (content (el_kids e)) + weight (el_kids (emptied e)) = 6.
Proof.
  intros e.
  assert (H : JQ.find "module" (el_kids e) <> []) by (vm_compute; discriminate).
  destruct (move_conserves e) as (Hw & _ & _ & Hlen).
  split; [exact H|]. split; [exact (Hlen H)|exact Hw].
Defined.

(** ** The error scan, again and after loading *)

Lemma scan_cases (ps : list panel) :
  Forall (fun q => has_errors q = false) ps
  \/ exists clean p rest,
       ps = clean ++ p :: rest
       /\ Forall (fun q => has_errors q = false) clean /\ has_errors p = true.
Proof.
  induction ps as [|q ps IH]; [left; constructor|].
  destruct (has_errors q) eqn:Hq.
  - right. exists [], q, ps. split; [done|]. split; [constructor|done].
  - destruct IH as [Hclean|(clean & p & rest & -> & Hclean & Hp)].
    + left. by constructor.
    + right. exists (q :: clean), p, rest. split; [done|]. split; [by constructor|done].
Qed.

(** X12: running the error scan a second time changes nothing: the
    panel it went to the first time is the one it finds again. *)
Theorem showTabWithErrors_again (st : state) :
  showTabWithErrors (showTabWithErrors st) = showTabWithErrors st.
Proof.
  unfold showTabWithErrors at 2 3.
  destruct (scan_cases (panels st)) as [Hclean|(clean & p & rest & Hps & Hclean & Hp)].
  - rewrite (scan_clean _ st Hclean). simpl. unfold showTabWithErrors.
    by rewrite (scan_clean _ st Hclean).
  - rewrite Hps, (scan_first clean p rest st Hclean Hp). simpl.
    unfold showTabWithErrors. rewrite panels_switchToTab, Hps, fmap_app, fmap_cons.
    rewrite scan_first.
    + simpl. apply switchToTab_twice.
    + apply Forall_fmap. eapply Forall_impl; [exact Hclean|]. by intros q Hq.
    + exact Hp.
Qed.

(** ** Clicks and key presses, exactly *)

Lemma filter_eq_elem (c : string) (l : list string) :
  NoDup l -> c ∈ l -> filter (fun y => y = c) l = [c].
Proof. intros Hnd Hin. by rewrite (filter_eq_NoDup c l Hnd), bool_decide_eq_true_2. Qed.

(** X13: on a page the script has set up, a click on a header makes
    that header and the panel of its language the only active ones and
    stores its language, which is what is read back as the selection. *)
Theorem click_selects (st : state) (h : header) :
  reachable st -> h ∈ headers st ->
  active_headers (click h st) = [h_lang h]
  /\ active_panels (click h st) = [h_lang h]
  /\ localStorage (click h st) !! storage_key = Some (h_lang h)
  /\ getSelectedTab (click h st) = h_lang h.
Proof.
  intros Hreach Hh.
  destruct (reachable_strip st Hreach) as (Hsame & Hknown & _).
  destruct (reachable_distinct st Hreach) as [Hnd _].
  assert (Hin : h_lang h ∈ h_lang <$> headers st) by (by apply list_elem_of_fmap_2).
  assert (Hact : active_headers (click h st) = [h_lang h]).
  { change (active_headers (click h st))
      with (active_headers (switchToTab (h_lang h) st)).
    rewrite active_headers_switchToTab. by apply filter_eq_elem. }
  assert (Hpan : active_panels (click h st) = [h_lang h]).
  { change (active_panels (click h st))
      with (active_panels (switchToTab (h_lang h) st)).
    rewrite active_panels_switchToTab, <- Hsame. by apply filter_eq_elem. }
  split; [done|]. split; [done|].
  unfold getSelectedTab, click, saveSelectedTab; simpl. rewrite lookup_insert_eq.
  split; [done|]. simpl. by destruct (Hknown _ Hin) as [-> | ->].
Qed.

Lemma click_selects_witness :
  let st := state_of (ready (page three_groups ∅)) in
  let h := {| h_class := ["lang-tab-header"; "lang-mk"]; h_lang := "mk";
              h_text := "Македонски"; h_title := Some "Македонски (Ctrl+2)" |} in
  reachable st /\ h ∈ headers st
  /\ active_headers (click h st) = ["mk"] /\ getSelectedTab (click h st) = "mk".
Proof.
  intros st h.
  assert (H1 : reachable st).
  { apply (reach_ready three_groups ∅); vm_compute; reflexivity. }
  assert (H2 : h ∈ headers st).
  { assert (Hhs : headers st = [ {| h_class := ["lang-tab-header"; "lang-en"; "active"];
                                   h_lang := "en"; h_text := "English";
                                   h_title := Some "English (Ctrl+1)" |}; h ])
      by (vm_compute; reflexivity).
    rewrite Hhs. right. left. }
  destruct (click_selects st h H1 H2) as (Ha & _ & _ & Hg).
  split; [exact H1|]. split; [exact H2|]. split; [exact Ha|exact Hg].
Defined.

(** X14: the keydown handler calls [preventDefault] exactly for Ctrl or
    Meta with key code 49 or 50; any other key press leaves the page as it
    is.  On a page the script has set up, the shortcut for a language
    makes its header and panel the only active ones when the strip has
    that language, and leaves no header and no panel active when it has
    not. *)
Theorem keydown_exact (st : state) (e : key_event) :
  reachable st ->
  (keydown e st).2
  = ((ctrlKey e || metaKey e) && ((which e =? 49)%Z || (which e =? 50)%Z))
  /\ ((keydown e st).2 = false -> (keydown e st).1 = st)
  /\ ((keydown e st).2 = true ->
      let c := if (which e =? 49)%Z then "en" else "mk" in
      active_headers (keydown e st).1
      = (if bool_decide (c ∈ h_lang <$> headers st) then [c] else [])
      /\ active_panels (keydown e st).1 = active_headers (keydown e st).1).
Proof.
  intros Hreach.
  destruct (reachable_strip st Hreach) as (Hsame & _).
  destruct (reachable_distinct st Hreach) as [Hnd _].
  assert (Hsw : forall c,
    active_headers (switchToTab c st)
    = (if bool_decide (c ∈ h_lang <$> headers st) then [c] else [])
    /\ active_panels (switchToTab c st) = active_headers (switchToTab c st)).
  { intros c. rewrite active_headers_switchToTab, active_panels_switchToTab, <- Hsame.
    split; [by apply filter_eq_NoDup|done]. }
  unfold keydown. destruct (ctrlKey e || metaKey e); simpl; [|done].
  destruct (which e =? 49)%Z; simpl; [split; [done|split; [done|intros _; apply Hsw]]|].
  destruct (which e =? 50)%Z; simpl; [split; [done|split; [done|intros _; apply Hsw]]|].
  done.
Qed.

Lemma keydown_exact_witness :
  let st := state_of (ready (page mk_only {[storage_key := "mk"]})) in
  reachable st
  /\ active_headers st = ["mk"]
  /\ (keydown ctrl_1 st).2 = true
  /\ active_headers (keydown ctrl_1 st).1 = []
  /\ active_panels (keydown ctrl_1 st).1 = [].
Proof.
  intros st.
  assert (H1 : reachable st).
  { apply (reach_ready mk_only {[storage_key := "mk"]}); vm_compute; reflexivity. }
  destruct (keydown_exact st ctrl_1 H1) as (Hp & _ & Ha).
  assert (H2 : (keydown ctrl_1 st).2 = true) by (rewrite Hp; reflexivity).
  destruct (Ha H2) as [Hh Hpan].
  assert (H3 : active_headers (keydown ctrl_1 st).1 = []).
  { rewrite Hh. vm_compute. reflexivity. }
  split; [exact H1|]. split; [vm_compute; reflexivity|]. split; [exact H2|].
  split; [exact H3|]. rewrite Hpan. exact H3.
Defined.

(** ** The error scan after loading *)

Lemma find_flat_map {A} c (F : A -> list node) (l : list A) :
  (0 <? length (JQ.find c (flat_map F l)))
  = existsb (fun x => 0 <? length (JQ.find c (F x))) l.
Proof.
  induction l as [|x l IH]; [done|]. simpl.
  unfold JQ.find in *. rewrite flat_map_app, length_app, <- IH.
  destruct (length (flat_map (JQ.matching c) (F x))); simpl; [done|].
  by destruct (length _).
Qed.

Lemma errors_in_flat_map {A} (F : A -> list node) (l : list A) :
  errors_in (flat_map F l) = existsb (fun x => errors_in (F x)) l.
Proof.
  unfold errors_in. rewrite !find_flat_map.
  induction l as [|x l IH]; [done|]. simpl. rewrite <- IH.
  destruct (0 <? length (JQ.find "errorlist" (F x))),
           (0 <? length (JQ.find "error" (F x))); simpl; try done;
    repeat match goal with
           | |- context [existsb ?f l] => destruct (existsb f l)
           end; done.
Qed.

Lemma existsb_filter {A} (P f : A -> bool) (l : list A) :
  existsb f (filter (fun x => P x = true) l) = existsb (fun x => P x && f x) l.
Proof.
  induction l as [|x l IH]; [done|]. rewrite filter_cons. simpl.
  destruct (P x); simpl; by rewrite IH.
Qed.

Lemma group_errors_populated k els :
  group_errors k els = true -> existsb (tagged k) els = true.
Proof.
  unfold group_errors. rewrite !existsb_exists.
  intros (e & He & [Ht _]%andb_prop). eauto.
Qed.

(** The panels of a page the ready callback has set up: their languages
    and whether the scan finds an error marker in them. *)
Lemma ready_panels els ls st :
  ready (page els ls) = Returned st ->
  (forall e, e ∈ els -> marked e = true ->
     occurrences "en" (el_class e) + occurrences "mk" (el_class e) <= 1) ->
  p_lang <$> panels st = populated els
  /\ forall p, p ∈ panels st -> has_errors p = group_errors (p_lang p) els.
Proof.
  intros Hready Hone. split.
  - pose proof Hready as [[Hsel ->]|(st1 & -> & _ & Hp & _)]%ready_page.
    + by rewrite panels_page, (populated_none els Hsel).
    + rewrite panels_hints.
      by destruct (langs_switchToTab
                     (if bool_decide (getSelectedTab (page els ls) ∈ populated els)
                      then getSelectedTab (page els ls) else "en") st1) as [_ ->].
  - unfold ready in Hready.
    destruct (initMultilingualTabs (page els ls)) as [st0|st0] eqn:Hinit; [|done].
    injection Hready as <-. rewrite panels_hints. intros p Hp.
    change (has_errors p) with (errors_in (p_kids p)).
    rewrite (panels_hold els ls st0 Hinit Hone p Hp).
    rewrite errors_in_flat_map. apply existsb_filter.
Qed.

(** The scan after loading, in the model. *)
Lemma scan_outcome (els : list element) (ls : gmap string string) (st : state) :
  ready (page els ls) = Returned st ->
  (forall e, e ∈ els -> marked e = true ->
     occurrences "en" (el_class e) + occurrences "mk" (el_class e) <= 1) ->
  showTabWithErrors st
  = if group_errors "en" els then switchToTab "en" st
    else if group_errors "mk" els then switchToTab "mk" st
    else st.
Proof.
  intros Hready Hone. destruct (ready_panels els ls st Hready Hone) as [Hlangs Herr].
  assert (Hno : forall k, existsb (tagged k) els = false -> group_errors k els = false).
  { intros k Hk. destruct (group_errors k els) eqn:Hg; [|done].
    apply group_errors_populated in Hg. congruence. }
  unfold showTabWithErrors. unfold populated, languages in Hlangs.
  rewrite !filter_cons, filter_nil in Hlangs. simpl in Hlangs.
  destruct (panels st) as [|p [|q [|r rest]]] eqn:Hps;
    destruct (existsb (tagged "en") els) eqn:Hen, (existsb (tagged "mk") els) eqn:Hmk;
    simpl in Hlangs; try discriminate Hlangs.
  - by rewrite (Hno "en" Hen), (Hno "mk" Hmk).
  - injection Hlangs as Hp. simpl.
    rewrite (Herr p) by (by left). rewrite Hp, (Hno "mk" Hmk).
    by destruct (group_errors "en" els).
  - injection Hlangs as Hp. simpl.
    rewrite (Herr p) by (by left). rewrite Hp, (Hno "en" Hen).
    by destruct (group_errors "mk" els).
  - injection Hlangs as Hp Hq. simpl.
    rewrite (Herr p) by (by left). rewrite Hp.
    destruct (group_errors "en" els); [done|]. simpl.
    rewrite (Herr q) by (right; by left). rewrite Hq.
    by destruct (group_errors "mk" els).
Qed.

(** A fieldset listed in both groups gives its [.module] elements to the
    first panel and the wrapper they were in to the second. *)
Example listed_twice :
  (fun p => (p_lang p, p_kids p))
    <$> panels (state_of (initMultilingualTabs
                            (page [fieldset "lang-tab lang-en lang-mk"
                                     [Elem "wrap" [Elem "module" [Text "a"]]]] ∅)))
  = [("en", [Elem "module" [Text "a"]]); ("mk", [Elem "wrap" []])].
Proof. vm_compute. reflexivity. Qed.

(** * The further properties, on the pages the model covers *)

Lemma ready_returns els ls :
  existsb inherits els = false -> exists st, ready (page els ls) = Returned st.
Proof.
  intros Hno. pose proof (ready_outcome els ls) as Hout.
  destruct (ready (page els ls)) as [st|st]; [by exists st|].
  destruct Hout as [Hyes _]. congruence.
Qed.

Lemma init_returns els ls :
  existsb inherits els = false -> exists st, initMultilingualTabs (page els ls) = Returned st.
Proof.
  intros [st Hst]%(ready_returns els ls). unfold ready in Hst.
  destruct (initMultilingualTabs (page els ls)) as [st0|st0]; [by exists st0|done].
Qed.

Lemma categorize_returns els :
  existsb inherits els = false ->
  is_Some (categorize (Plain <$> els) (select_lang_tab (Plain <$> els)) empty_groups).
Proof.
  intros Hno. apply not_eq_None_Some. intros Hnone.
  apply (categorize_None _ _ _ empty_groups_keys) in Hnone.
  apply inherits_page in Hnone. congruence.
Qed.

(** X2: on a page the model covers, with no marked group of an inherited
    class, the ready callback returns, and the header that is then active
    is the one of the stored code (or of "en" with nothing stored) when a
    marked group of that language is on the page; failing that, the header
    of "en" when a marked group of "en" is on the page; failing that,
    none.  The active panel is of the same language. *)
Theorem ready_selection (els : list element) (ls : gmap string string) :
  form_ok els = true -> stored_ok ls = true -> existsb inherits els = false ->
  exists st,
    ready (page els ls) = Returned st
    /\ active_headers st
       = (if bool_decide (getSelectedTab (page els ls) ∈ populated els)
          then [getSelectedTab (page els ls)]
          else if bool_decide ("en" ∈ populated els) then ["en"] else [])
    /\ active_panels st = active_headers st.
Proof.
  intros _ _ [st Hst]%(ready_returns els ls). exists st.
  split; [exact Hst|]. by apply ready_active.
Qed.

Lemma ready_selection_witness :
  form_ok three_groups = true /\ stored_ok {[storage_key := "mk"]} = true
  /\ existsb inherits three_groups = false
  /\ exists st, ready (page three_groups {[storage_key := "mk"]}) = Returned st
                /\ active_headers st = ["mk"].
Proof.
  assert (H1 : form_ok three_groups = true) by (vm_compute; reflexivity).
  assert (H2 : stored_ok {[storage_key := "mk"]} = true) by (vm_compute; reflexivity).
  assert (H3 : existsb inherits three_groups = false) by (vm_compute; reflexivity).
  split; [exact H1|]. split; [exact H2|]. split; [exact H3|].
  destruct (ready_selection three_groups {[storage_key := "mk"]} H1 H2 H3)
    as (st & Hst & Hact & _).
  exists st. split; [exact Hst|]. rewrite Hact. vm_compute. reflexivity.
Defined.

(** X4: on a page the model covers, with no marked group of an inherited
    class, the ready callback returns, and a click on any header followed
    by a reload of the same page brings the page back with that header's
    language selected: the ready callback returns again, the active header
    and the active panel are those of the language clicked, and that
    language is what storage holds. *)
Theorem click_then_reload (els : list element) (ls : gmap string string) :
  form_ok els = true -> stored_ok ls = true -> existsb inherits els = false ->
  exists st,
    ready (page els ls) = Returned st
    /\ forall h, h ∈ headers st ->
         exists st',
           ready (page els (localStorage (click h st))) = Returned st'
           /\ active_headers st' = [h_lang h]
           /\ active_panels st' = [h_lang h]
           /\ getSelectedTab st' = h_lang h.
Proof.
  intros _ _ [st Hst]%(ready_returns els ls). exists st.
  split; [exact Hst|]. intros h Hh. by apply (reload_after_click els ls st h).
Qed.

Lemma click_then_reload_witness :
  form_ok three_groups = true /\ stored_ok ∅ = true
  /\ existsb inherits three_groups = false
  /\ exists st, ready (page three_groups ∅) = Returned st
                /\ h_lang <$> headers st = ["en"; "mk"].
Proof.
  assert (H1 : form_ok three_groups = true) by (vm_compute; reflexivity).
  assert (H2 : stored_ok ∅ = true) by (vm_compute; reflexivity).
  assert (H3 : existsb inherits three_groups = false) by (vm_compute; reflexivity).
  split; [exact H1|]. split; [exact H2|]. split; [exact H3|].
  destruct (click_then_reload three_groups ∅ H1 H2 H3) as (st & Hst & _).
  exists st. split; [exact Hst|].
  assert (Hc : ready (page three_groups ∅)
               = Returned (state_of (ready (page three_groups ∅))))
    by (vm_compute; reflexivity).
  rewrite Hc in Hst. injection Hst as <-. vm_compute. reflexivity.
Defined.

(** X5: on a page the model covers, with no marked group of an inherited
    class, the ready callback returns, and every header is then that of
    "en", labelled "English" with the title "English (Ctrl+1)", or that of
    "mk", labelled with the Macedonian name and the title for Ctrl+2. *)
Theorem ready_titles (els : list element) (ls : gmap string string) :
  form_ok els = true -> stored_ok ls = true -> existsb inherits els = false ->
  exists st,
    ready (page els ls) = Returned st
    /\ forall h, h ∈ headers st ->
         (h_lang h = "en" /\ h_text h = "English" /\ h_title h = Some "English (Ctrl+1)")
         \/ (h_lang h = "mk" /\ h_text h = "Македонски"
             /\ h_title h = Some "Македонски (Ctrl+2)").
Proof.
  intros _ _ [st Hst]%(ready_returns els ls). exists st.
  split; [exact Hst|]. intros h Hh. by apply (titles_set els ls st h).
Qed.

Lemma ready_titles_witness :
  form_ok mk_only = true /\ stored_ok ∅ = true /\ existsb inherits mk_only = false
  /\ exists st, ready (page mk_only ∅) = Returned st /\ length (headers st) = 1.
Proof.
  assert (H1 : form_ok mk_only = true) by (vm_compute; reflexivity).
  assert (H2 : stored_ok ∅ = true) by (vm_compute; reflexivity).
  assert (H3 : existsb inherits mk_only = false) by (vm_compute; reflexivity).
  split; [exact H1|]. split; [exact H2|]. split; [exact H3|].
  destruct (ready_titles mk_only ∅ H1 H2 H3) as (st & Hst & _).
  exists st. split; [exact Hst|].
  assert (Hc : ready (page mk_only ∅) = Returned (state_of (ready (page mk_only ∅))))
    by (vm_compute; reflexivity).
  rewrite Hc in Hst. injection Hst as <-. vm_compute. reflexivity.
Defined.

(** X6: on a page the model covers, the ready callback ends in a
    TypeError exactly when some marked field group has a class [lang-k]
    whose [k] is a property every object inherits, such as
    [lang-constructor]; the page is then exactly as it was.  When the
    callback returns, storage is as it was. *)
Theorem ready_throws_iff (els : list element) (ls : gmap string string) :
  form_ok els = true -> stored_ok ls = true ->
  match ready (page els ls) with
  | Threw st => existsb inherits els = true /\ st = page els ls
  | Returned st => existsb inherits els = false /\ localStorage st = ls
  end.
Proof. intros _ _. apply ready_outcome. Qed.

Lemma ready_throws_iff_witness :
  form_ok inherited_page = true /\ stored_ok ∅ = true
  /\ ready (page inherited_page ∅) = Threw (page inherited_page ∅)
  /\ existsb inherits inherited_page = true.
Proof.
  assert (H1 : form_ok inherited_page = true) by (vm_compute; reflexivity).
  assert (H2 : stored_ok ∅ = true) by (vm_compute; reflexivity).
  assert (Hc : ready (page inherited_page ∅) = Threw (page inherited_page ∅))
    by (vm_compute; reflexivity).
  split; [exact H1|]. split; [exact H2|]. split; [exact Hc|].
  pose proof (ready_throws_iff inherited_page ∅ H1 H2) as Hout.
  rewrite Hc in Hout. exact (proj1 Hout).
Defined.

(** X7: on a page the model covers, with no marked group of an inherited
    class, whose first marked field group is at position [i0],
    [initMultilingualTabs] returns, and the document is then the elements
    before that position exactly as they were, then the strip with all the
    headers and panels, then the other elements in their order: the strip
    stands immediately before the first marked group and nothing is
    removed from the document. *)
Theorem strip_before_first_marked (els : list element) (ls : gmap string string)
    (i0 : nat) (e0 : element) :
  form_ok els = true -> stored_ok ls = true -> existsb inherits els = false ->
  els !! i0 = Some e0 -> marked e0 = true ->
  (forall j e, j < i0 -> els !! j = Some e -> marked e = false) ->
  exists st,
    initMultilingualTabs (page els ls) = Returned st
    /\ doc st = (Plain <$> take i0 els)
                ++ LangTabs (headers st) (panels st)
                :: (Plain <$> drop i0 (elements_of (doc st)))
    /\ length (elements_of (doc st)) = length els
    /\ el_class <$> elements_of (doc st) = el_class <$> els.
Proof.
  intros _ _ [st Hst]%(init_returns els ls) He0 Hm0 Hbefore. exists st.
  split; [exact Hst|]. by apply (strip_position els ls st i0 e0).
Qed.

Lemma strip_before_first_marked_witness :
  let e1 := fieldset "module aligned lang-tab lang-en" [row "title_en"] in
  form_ok three_groups = true /\ stored_ok ∅ = true
  /\ existsb inherits three_groups = false
  /\ three_groups !! 1 = Some e1 /\ marked e1 = true
  /\ exists st, initMultilingualTabs (page three_groups ∅) = Returned st
                /\ doc st !! 1 = Some (LangTabs (headers st) (panels st))
                /\ length (elements_of (doc st)) = 4.
Proof.
  intros e1.
  assert (H1 : form_ok three_groups = true) by (vm_compute; reflexivity).
  assert (H2 : stored_ok ∅ = true) by (vm_compute; reflexivity).
  assert (H3 : existsb inherits three_groups = false) by (vm_compute; reflexivity).
  assert (H4 : three_groups !! 1 = Some e1) by reflexivity.
  assert (H5 : marked e1 = true) by (vm_compute; reflexivity).
  assert (H6 : forall j e, j < 1 -> three_groups !! j = Some e -> marked e = false).
  { intros j e Hj. assert (j = 0) as -> by lia. intros [= <-]. vm_compute. reflexivity. }
  split; [exact H1|]. split; [exact H2|]. split; [exact H3|].
  split; [exact H4|]. split; [exact H5|].
  destruct (strip_before_first_marked three_groups ∅ 1 e1 H1 H2 H3 H4 H5 H6)
    as (st & Hst & Hd & Hl & _).
  exists st. split; [exact Hst|]. split; [|exact Hl].
  rewrite Hd. reflexivity.
Defined.

(** X8: on a page the model covers, with no marked group of an inherited
    class, [initMultilingualTabs] returns, and every element is then still
    at its place with its class attribute; it is hidden when it is a
    marked group that has, among the class names split off at spaces, the
    class of "en" or of "mk", and it is exactly as it was otherwise. *)
Theorem init_hides_exactly (els : list element) (ls : gmap string string) :
  form_ok els = true -> stored_ok ls = true -> existsb inherits els = false ->
  exists st,
    initMultilingualTabs (page els ls) = Returned st
    /\ forall i e, els !! i = Some e ->
         exists e',
           elements_of (doc st) !! i = Some e'
           /\ el_class e' = el_class e
           /\ (tagged "en" e || tagged "mk" e = true -> el_hidden e' = true)
           /\ (tagged "en" e || tagged "mk" e = false -> e' = e).
Proof.
  intros _ _ [st Hst]%(init_returns els ls). exists st.
  split; [exact Hst|]. intros i e He. by apply (hidden_exactly els ls st i e).
Qed.

Lemma init_hides_exactly_witness :
  let els := [ fieldset "module lang-tab lang-en" [row "title_en"];
               fieldset "module lang-tab lang-fr" [row "title_fr"] ] in
  form_ok els = true /\ stored_ok ∅ = true /\ existsb inherits els = false
  /\ exists st, initMultilingualTabs (page els ∅) = Returned st
                /\ exists e', elements_of (doc st) !! 0 = Some e' /\ el_hidden e' = true.
Proof.
  intros els.
  assert (H1 : form_ok els = true) by (vm_compute; reflexivity).
  assert (H2 : stored_ok ∅ = true) by (vm_compute; reflexivity).
  assert (H3 : existsb inherits els = false) by (vm_compute; reflexivity).
  split; [exact H1|]. split; [exact H2|]. split; [exact H3|].
  destruct (init_hides_exactly els ∅ H1 H2 H3) as (st & Hst & Hall).
  exists st. split; [exact Hst|].
  destruct (Hall 0 (fieldset "module lang-tab lang-en" [row "title_en"]) eq_refl)
    as (e' & He' & _ & Hhid & _).
  exists e'. split; [exact He'|]. apply Hhid. vm_compute. reflexivity.
Defined.

(** X9: on a page whose markup keeps clear of the script's classes, with
    no marked group of an inherited class, the grouping goes through, and
    the group of "en" and the group of "mk" list the marked fieldsets in
    document order, each one as many times as its class attribute, split
    at single spaces, has the class of that language. *)
Theorem groups_exact (els : list element) (k : string) :
  form_ok els = true -> existsb inherits els = false ->
  k = "en" \/ k = "mk" ->
  exists g,
    categorize (Plain <$> els) (select_lang_tab (Plain <$> els)) empty_groups = Some g
    /\ group g k
       = flat_map (fun i => replicate (occurrences k (class_attr (Plain <$> els) i)) i)
                  (select_lang_tab (Plain <$> els)).
Proof.
  intros _ [g Hg]%categorize_returns Hk. exists g.
  split; [exact Hg|]. by apply groups_listing.
Qed.

Lemma groups_exact_witness :
  let els := [ fieldset "lang-tab lang-mk lang-en lang-mk" [row "a"];
               fieldset "lang-tab  lang-en" [row "b"] ] in
  form_ok els = true /\ existsb inherits els = false
  /\ exists g,
      categorize (Plain <$> els) (select_lang_tab (Plain <$> els)) empty_groups = Some g
      /\ group g "mk" = [0; 0] /\ group g "en" = [0; 1].
Proof.
  intros els.
  assert (H1 : form_ok els = true) by (vm_compute; reflexivity).
  assert (H2 : existsb inherits els = false) by (vm_compute; reflexivity).
  split; [exact H1|]. split; [exact H2|].
  destruct (groups_exact els "mk" H1 H2 (or_intror eq_refl)) as (g & Hg & Hmk).
  destruct (groups_exact els "en" H1 H2 (or_introl eq_refl)) as (g' & Hg' & Hen).
  rewrite Hg in Hg'. injection Hg' as <-.
  exists g. split; [exact Hg|]. rewrite Hmk, Hen. split; vm_compute; reflexivity.
Defined.

(** X10: on a page the model covers, with no marked group of an
    inherited class and none with more than one class of a known language
    (counting repetitions), [initMultilingualTabs] returns, and every panel
    then holds what the marked groups of its language had to give (their
    [.module] descendants, or their element children when they have none),
    group after group in document order, and nothing else. *)
Theorem panel_content (els : list element) (ls : gmap string string) :
  form_ok els = true -> stored_ok ls = true -> existsb inherits els = false ->
  (forall e, e ∈ els -> marked e = true ->
     occurrences "en" (el_class e) + occurrences "mk" (el_class e) <= 1) ->
  exists st,
    initMultilingualTabs (page els ls) = Returned st
    /\ forall p, p ∈ panels st ->
         p_kids p
         = flat_map (fun e => content (el_kids e))
                    (filter (fun e => tagged (p_lang p) e = true) els).
Proof.
  intros _ _ [st Hst]%(init_returns els ls) Hone. exists st.
  split; [exact Hst|]. by apply (panels_hold els ls st).
Qed.

Lemma panel_content_witness :
  form_ok three_groups = true /\ stored_ok ∅ = true
  /\ existsb inherits three_groups = false
  /\ exists st,
      initMultilingualTabs (page three_groups ∅) = Returned st
      /\ (fun p => (p_lang p, p_kids p)) <$> panels st
         = [("en", [row "title_en"; row "body_en"]); ("mk", [row "title_mk"])].
Proof.
  assert (H1 : form_ok three_groups = true) by (vm_compute; reflexivity).
  assert (H2 : stored_ok ∅ = true) by (vm_compute; reflexivity).
  assert (H3 : existsb inherits three_groups = false) by (vm_compute; reflexivity).
  assert (H4 : forall e, e ∈ three_groups -> marked e = true ->
                 occurrences "en" (el_class e) + occurrences "mk" (el_class e) <= 1).
  { assert (HF : Forall (fun e => occurrences "en" (el_class e)
                                   + occurrences "mk" (el_class e) <= 1) three_groups).
    { unfold three_groups.
      repeat (apply Forall_cons; split; [vm_compute; lia|]). apply Forall_nil_2. }
    intros e He _. by apply (proj1 (Forall_forall _ _) HF). }
  split; [exact H1|]. split; [exact H2|]. split; [exact H3|].
  destruct (panel_content three_groups ∅ H1 H2 H3 H4) as (st & Hst & _).
  exists st. split; [exact Hst|].
  assert (Hc : initMultilingualTabs (page three_groups ∅)
               = Returned (state_of (initMultilingualTabs (page three_groups ∅))))
    by (vm_compute; reflexivity).
  rewrite Hc in Hst. injection Hst as <-. vm_compute. reflexivity.
Defined.

(** X15: on a page the model covers, with no marked group of an
    inherited class and none with more than one class of a known language,
    the ready callback returns, and the error scan that follows switches
    to "en" when a marked English group gives its panel an error marker,
    else to "mk" when a Macedonian one does, and else leaves the page as
    the ready callback left it. *)
Theorem scan_after_load (els : list element) (ls : gmap string string) :
  form_ok els = true -> stored_ok ls = true -> existsb inherits els = false ->
  (forall e, e ∈ els -> marked e = true ->
     occurrences "en" (el_class e) + occurrences "mk" (el_class e) <= 1) ->
  exists st,
    ready (page els ls) = Returned st
    /\ showTabWithErrors st
       = if group_errors "en" els then switchToTab "en" st
         else if group_errors "mk" els then switchToTab "mk" st
         else st.
Proof.
  intros _ _ [st Hst]%(ready_returns els ls) Hone. exists st.
  split; [exact Hst|]. by apply (scan_outcome els ls st).
Qed.

Lemma scan_after_load_witness :
  form_ok three_groups_mk_error = true /\ stored_ok ∅ = true
  /\ existsb inherits three_groups_mk_error = false
  /\ exists st, ready (page three_groups_mk_error ∅) = Returned st
                /\ showTabWithErrors st = switchToTab "mk" st.
Proof.
  assert (H1 : form_ok three_groups_mk_error = true) by (vm_compute; reflexivity).
  assert (H2 : stored_ok ∅ = true) by (vm_compute; reflexivity).
  assert (H3 : existsb inherits three_groups_mk_error = false) by (vm_compute; reflexivity).
  assert (H4 : forall e, e ∈ three_groups_mk_error -> marked e = true ->
                 occurrences "en" (el_class e) + occurrences "mk" (el_class e) <= 1).
  { assert (HF : Forall (fun e => occurrences "en" (el_class e)
                                   + occurrences "mk" (el_class e) <= 1)
                        three_groups_mk_error).
    { unfold three_groups_mk_error.
      repeat (apply Forall_cons; split; [vm_compute; lia|]). apply Forall_nil_2. }
    intros e He _. by apply (proj1 (Forall_forall _ _) HF). }
  split; [exact H1|]. split; [exact H2|]. split; [exact H3|].
  destruct (scan_after_load three_groups_mk_error ∅ H1 H2 H3 H4) as (st & Hst & Hscan).
  exists st. split; [exact Hst|]. rewrite Hscan.
  assert (Hen : group_errors "en" three_groups_mk_error = false) by (vm_compute; reflexivity).
  assert (Hmk : group_errors "mk" three_groups_mk_error = true) by (vm_compute; reflexivity).
  rewrite Hen, Hmk. reflexivity.
Defined.

(** * The states the script reaches are states the model covers *)

Lemma forallb_Forall {A} (f : A -> bool) (l : list A) :
  forallb f l = true <-> Forall (fun x => f x = true) l.
Proof.
  induction l as [|x l IH]; simpl; [split; [constructor|done]|].
  rewrite andb_true_iff, IH, Forall_cons. done.
Qed.

Lemma flat_map_none {A B} (f : A -> list B) (l : list A) :
  flat_map f l = [] -> Forall (fun x => f x = []) l.
Proof.
  induction l as [|x l IH]; [constructor|].
  change (flat_map f (x :: l)) with (f x ++ flat_map f l).
  intros [Hx Hl]%app_eq_nil. constructor; [done|by apply IH].
Qed.

Lemma matching_none c cls ks :
  JQ.matching c (Elem cls ks) = [] <->
  Str.hasClass c cls = false /\ Forall (fun k => JQ.matching c k = []) ks.
Proof.
  rewrite matching_Elem. split.
  - intros [Hc Hks]%app_eq_nil. split; [by destruct (Str.hasClass c cls)|].
    by apply flat_map_none.
  - intros [-> Hks]. simpl. by apply flat_map_nil.
Qed.

Lemma Forall_flat_map {A B} (P : B -> Prop) (f : A -> list B) (l : list A) :
  Forall (fun x => Forall P (f x)) l -> Forall P (flat_map f l).
Proof.
  induction 1 as [|x l Hx _ IH]; [constructor|]. cbn [flat_map]. by apply Forall_app.
Qed.

Lemma without_none_of c m (n : node) :
  JQ.matching c n = [] -> Forall (fun x => JQ.matching c x = []) (JQ.without m n).
Proof.
  induction n as [t|cls ks IH] using node_tree_ind; [by repeat constructor|].
  intros [Hc Hks]%matching_none. rewrite without_Elem.
  destruct (Str.hasClass m cls); [constructor|]. constructor; [|constructor].
  apply matching_none. split; [done|]. apply Forall_flat_map.
  clear Hc. induction IH as [|k ks Hk _ IHks]; [constructor|].
  apply Forall_cons in Hks as [Hk' Hks]. constructor; [by apply Hk|by apply IHks].
Qed.

Lemma detached_none_of c m (n : node) :
  JQ.matching c n = [] -> Forall (fun x => JQ.matching c x = []) (JQ.detached m n).
Proof.
  induction n as [t|cls ks IH] using node_tree_ind; [constructor|].
  intros [Hc Hks]%matching_none. rewrite detached_Elem. apply Forall_app. split.
  - destruct (Str.hasClass m cls); [|constructor]. constructor; [|constructor].
    apply matching_none. split; [done|]. apply Forall_flat_map.
    eapply Forall_impl; [exact Hks|]. intros k Hk. by apply without_none_of.
  - apply Forall_flat_map. clear Hc.
    induction IH as [|k ks Hk _ IHks]; [constructor|].
    apply Forall_cons in Hks as [Hk' Hks]. constructor; [by apply Hk|by apply IHks].
Qed.

Lemma node_clear_spec (n : node) :
  node_clear n = true <->
  JQ.matching "lang-tab" n = [] /\ JQ.matching "lang-tab-header" n = []
  /\ JQ.matching "lang-tab-content" n = [].
Proof.
  unfold node_clear, script_classes. simpl.
  destruct (JQ.matching "lang-tab" n), (JQ.matching "lang-tab-header" n),
           (JQ.matching "lang-tab-content" n); simpl; split; try done;
    by intros (? & ? & ?).
Qed.

Lemma nodes_clear_by (f : node -> list node) (ks : list node) :
  (forall c n, JQ.matching c n = [] -> Forall (fun x => JQ.matching c x = []) (f n)) ->
  Forall (fun n => node_clear n = true) ks ->
  Forall (fun n => node_clear n = true) (flat_map f ks).
Proof.
  intros Hf Hks. apply Forall_flat_map. eapply Forall_impl; [exact Hks|].
  intros n (H1 & H2 & H3)%node_clear_spec.
  pose proof (Hf "lang-tab" n H1) as F1.
  pose proof (Hf "lang-tab-header" n H2) as F2.
  pose proof (Hf "lang-tab-content" n H3) as F3.
  induction (f n) as [|x l IH]; [constructor|].
  apply Forall_cons in F1 as [? ?], F2 as [? ?], F3 as [? ?].
  constructor; [by apply node_clear_spec|by apply IH].
Qed.

Lemma Forall_filter_sub {A} (P : A -> Prop) (Q : A -> Prop) `{forall x, Decision (Q x)}
    (l : list A) :
  Forall P l -> Forall P (filter Q l).
Proof.
  induction 1 as [|x l Hx _ IH]; [constructor|]. rewrite filter_cons.
  case_decide; [by constructor|done].
Qed.

Lemma content_clear (ks : list node) :
  Forall (fun n => node_clear n = true) ks ->
  Forall (fun n => node_clear n = true) (content ks).
Proof.
  intros Hks. unfold content. destruct (0 <? length (JQ.find "module" ks)).
  - apply nodes_clear_by; [|done]. intros c n. apply detached_none_of.
  - by apply Forall_filter_sub.
Qed.

Lemma emptied_clear (e : element) : element_clear e = true -> element_clear (emptied e) = true.
Proof.
  unfold element_clear. simpl.
  intros [Hcls Hks%forallb_Forall]%andb_prop. rewrite Hcls. simpl.
  apply forallb_Forall. destruct (0 <? length (JQ.find "module" (el_kids e))).
  - apply nodes_clear_by; [|done]. intros c n. apply without_none_of.
  - by apply Forall_filter_sub.
Qed.

Lemma alter_clear i (els : list element) :
  Forall (fun e => element_clear e = true) els ->
  Forall (fun e => element_clear e = true) (alter emptied i els).
Proof.
  intros Hels. apply Forall_lookup. intros j e'. rewrite list_lookup_alter.
  case_decide as Heq.
  - subst j. destruct (els !! i) as [e|] eqn:He; csimpl; [|by intros [=]]. intros [= <-].
    apply emptied_clear. by eapply (proj1 (Forall_lookup _ _) Hels).
  - intros He. by eapply (proj1 (Forall_lookup _ _) Hels).
Qed.

Lemma content_at_clear i (els : list element) :
  Forall (fun e => element_clear e = true) els ->
  Forall (fun n => node_clear n = true) (content_at els i).
Proof.
  intros Hels. unfold content_at. destruct (els !! i) as [e|] eqn:He; [|constructor].
  simpl. apply content_clear.
  pose proof (proj1 (Forall_lookup _ _) Hels i e He) as Hc.
  unfold element_clear in Hc. apply andb_prop in Hc as [_ Hks]. by apply forallb_Forall.
Qed.

Lemma move_fieldsets_clear idxs (els : list element) (acc : list node) :
  Forall (fun e => element_clear e = true) els ->
  Forall (fun n => node_clear n = true) acc ->
  exists els' acc',
    foldl move_fieldset (Plain <$> els, acc) idxs = (Plain <$> els', acc')
    /\ Forall (fun e => element_clear e = true) els'
    /\ Forall (fun n => node_clear n = true) acc'.
Proof.
  revert els acc. induction idxs as [|i idxs IH]; intros els acc Hels Hacc; simpl.
  - by exists els, acc.
  - rewrite move_fieldset_page. apply IH; [by apply alter_clear|].
    apply Forall_app. split; [done|by apply content_at_clear].
Qed.

Lemma build_content_clear g (els : list element) (ps : list panel) (lang : language) :
  lang ∈ languages ->
  Forall (fun e => element_clear e = true) els ->
  Forall (fun p => panel_ok p = true) ps ->
  exists els' ps',
    build_content g (Plain <$> els, ps) lang = (Plain <$> els', ps')
    /\ Forall (fun e => element_clear e = true) els'
    /\ Forall (fun p => panel_ok p = true) ps'.
Proof.
  intros Hlang Hels Hps. unfold build_content. simpl.
  destruct (0 <? length (group g (code lang))); [|by exists els, ps].
  destruct (move_fieldsets_clear (group g (code lang)) els [] Hels (Forall_nil_2 _))
    as (els' & acc' & -> & Hels' & Hacc').
  cbn [fst snd]. exists els'. eexists. split; [reflexivity|]. split; [done|].
  apply Forall_app. split; [done|]. constructor; [|constructor].
  unfold panel_ok, tabContent. cbn [p_class p_lang p_kids].
  rewrite (proj2 (forallb_Forall _ _) Hacc').
  rewrite (bool_decide_eq_true_2 (code lang ∈ code <$> languages))
    by (by apply list_elem_of_fmap_2).
  reflexivity.
Qed.

Lemma build_headers_ok g : Forall (fun h => header_ok h = true) (build_headers g).
Proof.
  unfold build_headers, languages. simpl.
  destruct (0 <? length (group g "en")), (0 <? length (group g "mk")); simpl;
    repeat constructor.
Qed.

Lemma elem_of_switched x c lang cls :
  x <> "active" -> x ∈ switched c lang cls <-> x ∈ cls.
Proof.
  intros Hx.
  assert (Hrm : x ∈ JQ.removeClass "active" cls <-> x ∈ cls).
  { unfold JQ.removeClass. rewrite list_elem_of_filter. split; [by intros [_ ?]|done]. }
  unfold switched. destruct (String.eqb lang c); [|done].
  unfold JQ.addClass. case_bool_decide; [done|].
  rewrite elem_of_app, list_elem_of_singleton, Hrm. split; [by intros [?|?]|by left].
Qed.

Lemma bool_decide_switched x c lang cls :
  x <> "active" -> bool_decide (x ∈ switched c lang cls) = bool_decide (x ∈ cls).
Proof. intros Hx. apply bool_decide_ext. by apply elem_of_switched. Qed.

Lemma item_ok_switch c it : item_ok (switch_item c it) = item_ok it.
Proof.
  destruct it as [e|hs ps]; [done|]. simpl. f_equal.
  - induction hs as [|h hs IH]; [done|]. csimpl. rewrite IH. f_equal.
    unfold header_ok. simpl.
    by rewrite !bool_decide_switched by done.
  - induction ps as [|p ps IH]; [done|]. csimpl. rewrite IH. f_equal.
    unfold panel_ok. simpl.
    by rewrite !bool_decide_switched by done.
Qed.

Lemma state_ok_switchToTab c st : state_ok (switchToTab c st) = state_ok st.
Proof.
  unfold state_ok. rewrite doc_switchToTab.
  induction (doc st) as [|it d IH]; [done|]. csimpl. by rewrite item_ok_switch, IH.
Qed.

Lemma state_ok_hints st : state_ok (hints st) = state_ok st.
Proof.
  unfold hints. destruct (0 <? length (headers st)); [|done].
  assert (Hon : forall f s,
            (forall h, h_class (f h) = h_class h /\ h_lang (f h) = h_lang h) ->
            state_ok (on_headers f s) = state_ok s).
  { intros f s Hf. unfold state_ok, on_headers. simpl.
    induction (doc s) as [|it d IH]; [done|]. csimpl. rewrite IH. f_equal.
    destruct it as [e|hs ps]; [done|]. simpl. f_equal.
    induction hs as [|h hs IHh]; [done|]. csimpl. rewrite IHh. f_equal.
    unfold header_ok. destruct (Hf h) as [-> ->]. done. }
  rewrite !Hon; [done|..]; intros h; by destruct (h_data_lang_is _ h).
Qed.

Lemma state_ok_page els ls : state_ok (page els ls) = form_ok els.
Proof.
  unfold state_ok, form_ok. simpl. induction els as [|e els IH]; [done|].
  csimpl. by rewrite IH.
Qed.

Lemma ready_covered els ls st :
  form_ok els = true -> ready (page els ls) = Returned st -> state_ok st = true.
Proof.
  intros Hform. unfold ready.
  destruct (select_lang_tab (Plain <$> els)) as [|i0 rest] eqn:Hsel.
  { unfold initMultilingualTabs; simpl. rewrite Hsel. intros [= <-].
    by rewrite state_ok_hints, state_ok_page. }
  destruct (categorize (Plain <$> els) (i0 :: rest) empty_groups) as [g|] eqn:Hcat.
  2:{ unfold initMultilingualTabs; simpl. by rewrite Hsel, Hcat. }
  unfold initMultilingualTabs; simpl. rewrite Hsel, Hcat.
  set (en := {| code := "en"; name := "English"; class := "lang-en" |}).
  set (mk := {| code := "mk"; name := "Македонски"; class := "lang-mk" |}).
  change (build_contents g (Plain <$> els))
    with (build_content g (build_content g (Plain <$> els, []) en) mk).
  apply forallb_Forall in Hform.
  destruct (build_content_clear g els [] en) as (els1 & ps1 & -> & Hels1 & Hps1);
    [by left|done|constructor|].
  destruct (build_content_clear g els1 ps1 mk) as (els2 & ps2 & -> & Hels2 & Hps2);
    [right; by left|done|done|].
  intros [= <-]. rewrite state_ok_hints, state_ok_switchToTab.
  unfold state_ok, before. simpl. rewrite forallb_app. simpl.
  rewrite (proj2 (forallb_Forall _ _) (build_headers_ok g)).
  rewrite (proj2 (forallb_Forall _ _) Hps2). simpl.
  rewrite <- forallb_app, take_drop.
  apply forallb_Forall, Forall_fmap. eapply Forall_impl; [exact Hels2|]. done.
Qed.

(** X16: on every page the script has set up, and after any clicks, key
    presses and error scans, the headers and panels of the strip are the
    only elements of their classes, each is of one of the two languages,
    and no marked group lies below another element. *)
Theorem reachable_covered st : reachable st -> state_ok st = true.
Proof.
  induction 1 as [els ls st Hform _ Hready|h st _ IH _|e st _ IH|st _ IH].
  - by eapply ready_covered.
  - change (state_ok (click h st)) with (state_ok (switchToTab (h_lang h) st)).
    by rewrite state_ok_switchToTab.
  - destruct (keydown_result e st) as [->|[c ->]]; [done|].
    by rewrite state_ok_switchToTab.
  - unfold showTabWithErrors.
    destruct (scan_result (panels st) st) as [->|[c ->]]; [done|].
    by rewrite state_ok_switchToTab.
Qed.

Lemma reachable_covered_witness :
  reachable (state_of (ready (page three_groups ∅)))
  /\ state_ok (state_of (ready (page three_groups ∅))) = true.
Proof.
  assert (Hreach : reachable (state_of (ready (page three_groups ∅)))).
  { apply (reach_ready three_groups ∅); vm_compute; reflexivity. }
  split; [exact Hreach|]. exact (reachable_covered _ Hreach).
Defined.
